(** * Meeting-Assistant backend: extraction, rendering and orchestration

    A shallow embedding of [backend.py].  Python [str] values are Rocq
    strings read as UTF-8 text; the character classes used by the source
    ([\s], [\d], [.], [[A-Z]], [str.lower], [str.strip]) are modelled with
    their behaviour on the ASCII range, every byte above 127 being an
    ordinary caseless non-space character.  The embedding is therefore
    exact on ASCII text ([ascii_text]); a statement that tells which text
    of the speech engine is blank, or what its stripped form is, carries
    that condition as a hypothesis.

    The file system is the temporary directory, a flat map from paths to
    contents: a writable POSIX directory that holds files only. *)

From Stdlib Require Import ZArith Ascii String List Bool Lia Floats.
From stdpp Require Import base option list strings gmap.

Import ListNotations.
Set Warnings "-register-all,-inexact-float".
Local Open Scope string_scope.
Local Open Scope list_scope.

(* ===================================================================== *)
(** ** Python string primitives                                           *)
(* ===================================================================== *)

Module PyStr.

Definition code (c : ascii) : nat := nat_of_ascii c.

Definition in_range (lo hi c : ascii) : bool :=
  (code lo <=? code c)%nat && (code c <=? code hi)%nat.

(** [str.isspace] on one character: TAB LF VT FF CR, FS GS RS US, SPACE. *)
Definition is_space (c : ascii) : bool :=
  let n := code c in
  ((9 <=? n)%nat && (n <=? 13)%nat) || ((28 <=? n)%nat && (n <=? 32)%nat).

Definition is_digit (c : ascii) : bool := in_range "0" "9" c.
Definition is_upper (c : ascii) : bool := in_range "A" "Z" c.
Definition is_lower (c : ascii) : bool := in_range "a" "z" c.

Definition newline : ascii := ascii_of_nat 10.

Definition lower_char (c : ascii) : ascii :=
  if is_upper c then ascii_of_nat (code c + 32) else c.

Definition upper_char (c : ascii) : ascii :=
  if is_lower c then ascii_of_nat (code c - 32) else c.

(** [s.lower()] *)
Fixpoint lower (s : string) : string :=
  match s with
  | EmptyString => EmptyString
  | String c s' => String (lower_char c) (lower s')
  end.

(** [s.lstrip()], [s.rstrip()], [s.strip()] *)
Fixpoint lstrip (s : string) : string :=
  match s with
  | EmptyString => EmptyString
  | String c s' => if is_space c then lstrip s' else s
  end.

Fixpoint rstrip (s : string) : string :=
  match s with
  | EmptyString => EmptyString
  | String c s' =>
      match rstrip s' with
      | EmptyString => if is_space c then EmptyString else String c EmptyString
      | r => String c r
      end
  end.

Definition strip (s : string) : string := lstrip (rstrip s).

(** [s.startswith(p)] *)
Definition startswith (s p : string) : bool := String.prefix p s.

(** [k in s] *)
Fixpoint contains (s k : string) : bool :=
  String.prefix k s ||
  match s with
  | EmptyString => false
  | String _ s' => contains s' k
  end.

(** [sep.join(parts)] *)
Fixpoint join (sep : string) (parts : list string) : string :=
  match parts with
  | [] => EmptyString
  | [p] => p
  | p :: ps => p ++ sep ++ join sep ps
  end.

(** truthiness of a [str] *)
Definition nonempty (s : string) : bool :=
  match s with EmptyString => false | _ => true end.

(** [s.find(c)] and [s.rfind(c)] for a one-character needle: the index of
    the first (last) occurrence, [-1] when there is none. *)
Fixpoint find (c : ascii) (s : string) : Z :=
  match s with
  | EmptyString => (-1)%Z
  | String d s' =>
      if Ascii.eqb c d then 0%Z
      else let i := find c s' in if (i <? 0)%Z then (-1)%Z else (i + 1)%Z
  end.

Fixpoint rfind (c : ascii) (s : string) : Z :=
  match s with
  | EmptyString => (-1)%Z
  | String d s' =>
      let i := rfind c s' in
      if (0 <=? i)%Z then (i + 1)%Z
      else if Ascii.eqb c d then 0%Z else (-1)%Z
  end.

(** [s[a:b]] with Python's index adjustment: a negative index counts
    from the end, and both ends are clamped to [0, len(s)]. *)
Definition adjust (len i : Z) : Z :=
  if (i <? 0)%Z then Z.max (i + len) 0 else Z.min i len.

Definition slice (s : string) (a b : Z) : string :=
  let len := Z.of_nat (String.length s) in
  let a' := adjust len a in
  let b' := adjust len b in
  String.substring (Z.to_nat a') (Z.to_nat (b' - a')) s.

End PyStr.

(* ===================================================================== *)
(** ** The fragment of Python's [re] used by the extractor                *)
(* ===================================================================== *)

Module Re.

(** Character sets: a literal, a range [[a-z]], [\s], [\d], [.], unions. *)
Inductive cset : Type :=
| CChar (c : ascii)
| CRange (lo hi : ascii)
| CSpace
| CDigit
| CDot
| CUnion (a b : cset).

Fixpoint cset_mem (cs : cset) (c : ascii) : bool :=
  match cs with
  | CChar d => Ascii.eqb c d
  | CRange lo hi => PyStr.in_range lo hi c
  | CSpace => PyStr.is_space c
  | CDigit => PyStr.is_digit c
  | CDot => negb (Ascii.eqb c PyStr.newline)
  | CUnion a b => cset_mem a c || cset_mem b c
  end.

(** With [re.IGNORECASE] a character is accepted when it, its lower-case
    form or its upper-case form is in the set. *)
Definition cmatch (ic : bool) (cs : cset) (c : ascii) : bool :=
  cset_mem cs c ||
  (ic && (cset_mem cs (PyStr.lower_char c) || cset_mem cs (PyStr.upper_char c))).

(** Patterns.  Repetition is only applied to one-character atoms in the
    source, so the repeated item is a character set:
    [RStar cs] is [cs*], [RPlus cs] is [cs+], [RLazyPlus cs] is [cs+?].
    [RGroup n r] is the n-th capturing group, [REnd] is [$],
    [RBehind cs] is the one-character lookbehind [(?<=cs)]. *)
Inductive regex : Type :=
| REps
| RSet (cs : cset)
| RSeq (r1 r2 : regex)
| RAlt (r1 r2 : regex)
| RStar (cs : cset)
| RPlus (cs : cset)
| RLazyPlus (cs : cset)
| RGroup (n : nat) (r : regex)
| REnd
| RBehind (cs : cset).

(** A literal word is the sequence of its characters. *)
Fixpoint lit (w : string) : regex :=
  match w with
  | EmptyString => REps
  | String c EmptyString => RSet (CChar c)
  | String c w' => RSeq (RSet (CChar c)) (lit w')
  end.

Fixpoint cat (rs : list regex) : regex :=
  match rs with
  | [] => REps
  | [r] => r
  | r :: rs' => RSeq r (cat rs')
  end.

Fixpoint alt (rs : list regex) : regex :=
  match rs with
  | [] => REps
  | [r] => r
  | r :: rs' => RAlt r (alt rs')
  end.

(** Matcher state: the character before the cursor, the text from the
    cursor on, and the groups captured so far (latest binding first). *)
Record mstate : Type := MState {
  prev : option ascii;
  rest : string;
  caps : list (nat * string)
}.

(** The text between two cursors of the same subject string. *)
Definition consumed (before after : string) : string :=
  String.substring 0 (String.length before - String.length after) before.

(** [cs*], greedy: the longest run first, then shorter ones. *)
Fixpoint star_greedy (ic : bool) (cs : cset) (p : option ascii) (s : string)
    (cp : list (nat * string)) : list mstate :=
  match s with
  | String c s' =>
      if cmatch ic cs c
      then star_greedy ic cs (Some c) s' cp ++ [MState p s cp]
      else [MState p s cp]
  | EmptyString => [MState p s cp]
  end.

(** [cs*?], lazy: the shortest run first, then longer ones. *)
Fixpoint star_lazy (ic : bool) (cs : cset) (p : option ascii) (s : string)
    (cp : list (nat * string)) : list mstate :=
  MState p s cp ::
  match s with
  | String c s' => if cmatch ic cs c then star_lazy ic cs (Some c) s' cp else []
  | EmptyString => []
  end.

(** All the ways [r] matches at the cursor, in the backtracking order of
    Python's engine: the head of the list is the match [re] reports. *)
Fixpoint exec (ic : bool) (r : regex) (st : mstate) : list mstate :=
  match r with
  | REps => [st]
  | RSet cs =>
      match rest st with
      | String c s' => if cmatch ic cs c then [MState (Some c) s' (caps st)] else []
      | EmptyString => []
      end
  | RSeq r1 r2 => flat_map (exec ic r2) (exec ic r1 st)
  | RAlt r1 r2 => exec ic r1 st ++ exec ic r2 st
  | RStar cs => star_greedy ic cs (prev st) (rest st) (caps st)
  | RPlus cs =>
      match rest st with
      | String c s' => if cmatch ic cs c then star_greedy ic cs (Some c) s' (caps st) else []
      | EmptyString => []
      end
  | RLazyPlus cs =>
      match rest st with
      | String c s' => if cmatch ic cs c then star_lazy ic cs (Some c) s' (caps st) else []
      | EmptyString => []
      end
  | RGroup n r' =>
      map (fun st' => MState (prev st') (rest st')
                        ((n, consumed (rest st) (rest st')) :: caps st'))
          (exec ic r' st)
  | REnd =>
      match rest st with
      | EmptyString => [st]
      | String c EmptyString => if Ascii.eqb c PyStr.newline then [st] else []
      | _ => []
      end
  | RBehind cs =>
      match prev st with
      | Some c => if cmatch ic cs c then [st] else []
      | None => []
      end
  end.

(** A match object: [m.start()], [m.group(0)] and the numbered groups. *)
Record rmatch : Type := RMatch {
  m_start : nat;
  group0 : string;
  groups : list (nat * string)
}.

Fixpoint assoc (n : nat) (l : list (nat * string)) : option string :=
  match l with
  | [] => None
  | (k, v) :: l' => if Nat.eqb k n then Some v else assoc n l'
  end.

(** [m.group(n)] for a group that took part in the match. *)
Definition group (m : rmatch) (n : nat) : string :=
  match assoc n (groups m) with Some v => v | None => EmptyString end.

(** [match_here]: the match [re] finds when anchored at the cursor. *)
Definition match_here (ic : bool) (r : regex) (p : option ascii) (s : string)
    : option mstate :=
  head (exec ic r (MState p s [])).

(** [re.search(pat, s)]: the leftmost start position that matches. *)
Fixpoint search_from (ic : bool) (r : regex) (p : option ascii) (s : string)
    (i : nat) : option rmatch :=
  match match_here ic r p s with
  | Some st' => Some (RMatch i (consumed s (rest st')) (caps st'))
  | None =>
      match s with
      | String c s' => search_from ic r (Some c) s' (S i)
      | EmptyString => None
      end
  end.

Definition search (ic : bool) (r : regex) (s : string) : option rmatch :=
  search_from ic r None s 0.

(** [re.split(pat, s)] for a separator pattern that never matches the
    empty string.  [cur] is the piece being collected, [skip] the number
    of characters of the current separator still to be dropped. *)
Fixpoint split_from (r : regex) (p : option ascii) (skip : nat) (cur : string)
    (s : string) : list string :=
  match skip with
  | S k =>
      match s with
      | String c s' => split_from r (Some c) k cur s'
      | EmptyString => [cur]
      end
  | O =>
      match s with
      | EmptyString => [cur]
      | String c s' =>
          match match_here false r p s with
          | Some st' =>
              match String.length s - String.length (rest st') with
              | S k => cur :: split_from r (Some c) k EmptyString s'
              | O => split_from r (Some c) 0 (cur ++ String c EmptyString) s'
              end
          | None => split_from r (Some c) 0 (cur ++ String c EmptyString) s'
          end
      end
  end.

Definition split (r : regex) (s : string) : list string :=
  split_from r None 0 EmptyString s.

End Re.

(* ===================================================================== *)
(** ** 5. Local fallback extractor                                        *)
(* ===================================================================== *)

Import Re.

Definition name_group : regex :=
  RGroup 1 (RSeq (RSet (CRange "A" "Z")) (RPlus (CRange "a" "z"))).

Definition clause_group : regex := RGroup 2 (RLazyPlus CDot).

Definition clause_end : regex := RAlt (RSet (CChar ".")) REnd.

(** [TASK_PATTERNS], in declared order. *)
Definition TASK_PATTERNS : list regex := [
  (* ([A-Z][a-z]+)\s+(?:will|should|needs to|is going to|must|has to)\s+(.+?)(?:\.|$) *)
  cat [ name_group; RPlus CSpace;
        alt [lit "will"; lit "should"; lit "needs to"; lit "is going to";
             lit "must"; lit "has to"];
        RPlus CSpace; clause_group; clause_end ];
  (* ([A-Z][a-z]+)\s*:\s*(?:will|should|needs to|must)\s+(.+?)(?:\.|$) *)
  cat [ name_group; RStar CSpace; RSet (CChar ":"); RStar CSpace;
        alt [lit "will"; lit "should"; lit "needs to"; lit "must"];
        RPlus CSpace; clause_group; clause_end ];
  (* ([A-Z][a-z]+)\s+(?:assigned|tasked)\s+to\s+(.+?)(?:\.|$) *)
  cat [ name_group; RPlus CSpace; alt [lit "assigned"; lit "tasked"];
        RPlus CSpace; lit "to"; RPlus CSpace; clause_group; clause_end ]
].

Definition letters : cset := CUnion (CRange "A" "Z") (CRange "a" "z").

(** [DEADLINE_PATTERNS], in declared order (searched with [re.IGNORECASE]). *)
Definition DEADLINE_PATTERNS : list regex := [
  (* by\s+[A-Za-z]+\s*\d* *)
  cat [lit "by"; RPlus CSpace; RPlus letters; RStar CSpace; RStar CDigit];
  (* by\s+end of week *)
  cat [lit "by"; RPlus CSpace; lit "end of week"];
  (* by\s+tomorrow *)
  cat [lit "by"; RPlus CSpace; lit "tomorrow"];
  (* by\s+next week *)
  cat [lit "by"; RPlus CSpace; lit "next week"];
  (* by\s+Friday *)
  cat [lit "by"; RPlus CSpace; lit "Friday"];
  (* by\s+Monday *)
  cat [lit "by"; RPlus CSpace; lit "Monday"];
  (* by\s+Thursday *)
  cat [lit "by"; RPlus CSpace; lit "Thursday"];
  (* by\s+Sunday *)
  cat [lit "by"; RPlus CSpace; lit "Sunday"];
  (* before\s+next\s+meeting *)
  cat [lit "before"; RPlus CSpace; lit "next"; RPlus CSpace; lit "meeting"]
].

(** The sentence separator [(?<=[.!?])\s+]. *)
Definition SENTENCE_SEP : regex :=
  RSeq (RBehind (CUnion (CChar ".") (CUnion (CChar "!") (CChar "?"))))
       (RPlus CSpace).

Definition ACTION_KEYWORDS : list string :=
  ["should"; "need to"; "must"; "will"; "targeting"; "aim to"].

Record Task : Type := MkTask {
  speaker : string;
  assignee : string;
  task : string;
  deadline : option string;
  source : string
}.

Record StructuredRecord : Type := MkRecord {
  summary : string;
  action_points : list string;
  tasks : list Task;
  deadlines : list string;
  speakers : list string
}.

(** [list(dict.fromkeys(xs))]: a dict keeps its keys in insertion order and
    inserting a key that is present leaves the order alone. *)
Definition dict_add_key (d : list string) (k : string) : list string :=
  if bool_decide (k ∈ d) then d else d ++ [k].

Definition dict_fromkeys (xs : list string) : list string :=
  fold_left dict_add_key xs [].

(** The three accumulators of the sentence loop. *)
Record acc : Type := Acc {
  acc_action_points : list string;
  acc_tasks : list Task;
  acc_deadlines : list string
}.

(** Inner loop of the task branch: the first deadline pattern that matches
    sets [deadline], is appended to [deadlines], and ends the loop. *)
Fixpoint task_deadline_loop (dps : list regex) (s : string) (dl : list string)
    : option string * list string :=
  match dps with
  | [] => (None, dl)
  | dp :: dps' =>
      match search true dp s with
      | Some md => (Some (group0 md), dl ++ [group0 md])
      | None => task_deadline_loop dps' s dl
      end
  end.

(** [for pat in TASK_PATTERNS: ...] *)
Fixpoint task_loop (pats : list regex) (s : string) (a : acc) : acc :=
  match pats with
  | [] => a
  | pat :: pats' =>
      match search false pat s with
      | Some m =>
          let '(dline, dl) := task_deadline_loop DEADLINE_PATTERNS s (acc_deadlines a) in
          task_loop pats' s
            (Acc (acc_action_points a)
                 (acc_tasks a ++ [MkTask (group m 1) (group m 1)
                                         (PyStr.strip (group m 2)) dline s])
                 dl)
      | None => task_loop pats' s a
      end
  end.

(** [for dp in DEADLINE_PATTERNS: ...] after the task branch. *)
Fixpoint deadline_loop (dps : list regex) (s : string) (dl : list string)
    : list string :=
  match dps with
  | [] => dl
  | dp :: dps' =>
      match search true dp s with
      | Some md => deadline_loop dps' s (dl ++ [group0 md])
      | None => deadline_loop dps' s dl
      end
  end.

Definition is_action_point (s : string) : bool :=
  let sl := PyStr.lower s in
  existsb (fun k => PyStr.contains sl k) ACTION_KEYWORDS.

(** One iteration of [for s in sentences]. *)
Definition sentence_step (a : acc) (s : string) : acc :=
  let a1 :=
    if is_action_point s
    then Acc (acc_action_points a ++ [s]) (acc_tasks a) (acc_deadlines a)
    else a in
  let a2 := task_loop TASK_PATTERNS s a1 in
  Acc (acc_action_points a2) (acc_tasks a2)
      (deadline_loop DEADLINE_PATTERNS s (acc_deadlines a2)).

Definition sentences_of (text : string) : list string :=
  Re.split SENTENCE_SEP text.

Definition NO_SUMMARY : string := "No summary available.".

Definition local_extract (text : string) : StructuredRecord :=
  let sentences := sentences_of text in
  let summary := PyStr.join " " (firstn 3 sentences) in
  let a := fold_left sentence_step sentences (Acc [] [] []) in
  MkRecord
    (if PyStr.nonempty (PyStr.strip summary) then PyStr.strip summary else NO_SUMMARY)
    (dict_fromkeys (acc_action_points a))
    (acc_tasks a)
    (dict_fromkeys (acc_deadlines a))
    [].

(* ===================================================================== *)
(** ** Python values, exceptions and external collaborators              *)
(* ===================================================================== *)

(** Values that [json.loads] produces and that the response carries.  A
    dict is its list of items in insertion order, with distinct keys. *)
Inductive pyval : Type :=
| PNone
| PBool (b : bool)
| PInt (z : Z)
| PFloat (f : float)
| PStr (s : string)
| PList (l : list pyval)
| PDict (d : list (string * pyval)).

Inductive exn : Type :=
| HTTPException (status_code : Z) (detail : string)
| Exception (msg : string).

(** What a call does: return a value or raise. *)
Inductive outcome (A : Type) : Type :=
| Returns (a : A)
| Raises (e : exn).
Arguments Returns {A} a.
Arguments Raises {A} e.

(** What a call into a library or a remote service does: return, or raise
    an exception whose [str(e)] is [msg]. *)
Inductive ext (A : Type) : Type :=
| ExtOk (a : A)
| ExtRaise (msg : string).
Arguments ExtOk {A} a.
Arguments ExtRaise {A} msg.

Definition nl : string := String PyStr.newline EmptyString.

Module Py.

(** [bool(v)] *)
Definition truthy (v : pyval) : bool :=
  match v with
  | PNone => false
  | PBool b => b
  | PInt z => negb (z =? 0)%Z
  | PFloat f => negb (PrimFloat.eqb f 0%float)
  | PStr s => PyStr.nonempty s
  | PList l => match l with [] => false | _ => true end
  | PDict d => match d with [] => false | _ => true end
  end.

(** [a or b] *)
Definition or_ (a b : pyval) : pyval := if truthy a then a else b.

Definition type_name (v : pyval) : string :=
  match v with
  | PNone => "NoneType"
  | PBool _ => "bool"
  | PInt _ => "int"
  | PFloat _ => "float"
  | PStr _ => "str"
  | PList _ => "list"
  | PDict _ => "dict"
  end.

Fixpoint lookup (k : string) (d : list (string * pyval)) : option pyval :=
  match d with
  | [] => None
  | (k', v) :: d' => if String.eqb k' k then Some v else lookup k d'
  end.

(** [d.get(k, default)] and [d.get(k)] *)
Definition get (d : list (string * pyval)) (k : string) (default : pyval) : pyval :=
  match lookup k d with Some v => v | None => default end.

(** [d.setdefault(k, default)], the dict after the call. *)
Definition setdefault (d : list (string * pyval)) (k : string) (default : pyval)
    : list (string * pyval) :=
  match lookup k d with Some _ => d | None => d ++ [(k, default)] end.

Fixpoint chars (s : string) : list pyval :=
  match s with
  | EmptyString => []
  | String c s' => PStr (String c EmptyString) :: chars s'
  end.

(** [iter(v)]: the items a [for] loop visits, or [TypeError]. *)
Definition iter (v : pyval) : outcome (list pyval) :=
  match v with
  | PList l => Returns l
  | PStr s => Returns (chars s)
  | PDict d => Returns (map (fun kv => PStr (fst kv)) d)
  | _ => Raises (Exception ("'" ++ type_name v ++ "' object is not iterable"))
  end.

(** [t.get(k)] on an arbitrary value: only a dict has the method. *)
Definition method_get (t : pyval) (k : string) : outcome pyval :=
  match t with
  | PDict d => Returns (get d k PNone)
  | _ => Raises (Exception ("'" ++ type_name t ++ "' object has no attribute 'get'"))
  end.

(** [str(e)] for the exceptions the program formats. *)
Definition str_exn (e : exn) : string :=
  match e with
  | Exception msg => msg
  | HTTPException _ detail => detail
  end.

End Py.

(** The prompts sent to the generation model: the fixed template of each
    call site around the values interpolated into it. *)
Inductive prompt : Type :=
| ExtractPrompt (text : string)
| EmailPrompt (summary tasks : pyval)
| WhatsappPrompt (summary : pyval)
| TranslatePrompt (summary : pyval) (target_lang : string).

Record generation_config : Type := GenConfig {
  temperature : float;
  max_output_tokens : Z
}.

Definition GEMINI_MAX_TOKENS : Z := 1200.
Definition GEMINI_TEMPERATURE : float := 0.0%float.

(** Upload limit (2GB) *)
Definition MAX_UPLOAD_BYTES : Z := 2 * 1024 * 1024 * 1024.

Abbreviation bytes := (list Byte.byte).

(** One segment produced by the speech engine. *)
Record Segment : Type := MkSegment {
  seg_start : float;
  seg_end : float;
  seg_text : string
}.

(** Everything outside the repository that a request touches:
    the interpreter's formatting of non-string values and its [repr] of a
    string, [pathlib], [json.loads], the audio decoder, the speech engine
    and the generation model ([GEMINI_MODEL], [None] when it was not
    initialised). *)
Record Env : Type := MkEnv {
  tempdir : string;
  with_suffix : string -> string -> string;
  py_format : pyval -> string;
  py_repr : string -> string;
  json_loads : string -> ext pyval;
  decode_audio : bytes -> ext bytes;
  whisper_transcribe : bytes -> ext (list Segment);
  GEMINI_MODEL : option (prompt -> generation_config -> ext string)
}.


(** [f"{v}"]: a string is inserted as it is, [None] and the booleans by
    their names, any other value as the interpreter prints it. *)
Definition fmt (env : Env) (v : pyval) : string :=
  match v with
  | PStr s => s
  | PNone => "None"
  | PBool true => "True"
  | PBool false => "False"
  | _ => py_format env v
  end.

(** The uploaded file: its name and what the successive [audio.read] calls
    return; past the end of the list the stream is exhausted. *)
Record UploadFile : Type := MkUpload {
  filename : option string;
  reads : list (ext bytes)
}.

(** Calls that leave the process. *)
Inductive event : Type :=
| EvDecode (path : string)
| EvTranscribe (path : string)
| EvGenerate (p : prompt) (cfg : generation_config).

(** The world a request runs in: the files of the temporary directory,
    the calls issued so far, and the local [wav_path] once it is bound. *)
Record world : Type := World {
  fs : gmap string bytes;
  trace : list event;
  wav_path : option string
}.

(** Computations that read and change the world and may raise. *)
Definition M (A : Type) : Type := world -> outcome A * world.

Definition ret {A} (a : A) : M A := fun w => (Returns a, w).
Definition raise {A} (e : exn) : M A := fun w => (Raises e, w).
Definition bind {A B} (m : M A) (k : A -> M B) : M B :=
  fun w => match m w with
           | (Returns a, w') => k a w'
           | (Raises e, w') => (Raises e, w')
           end.

(** [try: body except Exception as e: handler(e)] *)
Definition try_except {A} (body : M A) (handler : exn -> M A) : M A :=
  fun w => match body w with
           | (Returns a, w') => (Returns a, w')
           | (Raises e, w') => handler e w'
           end.

(** [try: body finally: cleanup], for a cleanup that does not raise. *)
Definition try_finally {A} (body : M A) (cleanup : world -> world) : M A :=
  fun w => let '(r, w') := body w in (r, cleanup w').

Definition lift {A} (o : outcome A) : M A := fun w => (o, w).

Definition of_ext {A} (x : ext A) : M A :=
  match x with
  | ExtOk a => ret a
  | ExtRaise msg => raise (Exception msg)
  end.

Definition emit (e : event) : M unit :=
  fun w => (Returns tt, World (fs w) (trace w ++ [e]) (wav_path w)).

Declare Scope py_scope.
Delimit Scope py_scope with py.
Notation "'do' x <- m ; k" := (bind m (fun x => k))
  (at level 10, x name, m at level 100, k at level 200) : py_scope.
Notation "'run' m ; k" := (bind m (fun _ => k))
  (at level 10, m at level 100, k at level 200) : py_scope.

Local Open Scope py_scope.

(* ===================================================================== *)
(** ** 4. Audio helpers                                                   *)
(* ===================================================================== *)

(** [convert_to_wav(path)]: decode the file, write the mono 16 kHz WAV next
    to it and return its path.  A decoding failure raises before anything
    is written. *)
Definition convert_to_wav (env : Env) (path : string) : M string :=
  run emit (EvDecode path);
  fun w =>
    match fs w !! path with
    | None => (Raises (Exception "No such file or directory"), w)
    | Some content =>
        match decode_audio env content with
        | ExtRaise msg => (Raises (Exception msg), w)
        | ExtOk wav =>
            let out := with_suffix env path ".wav" in
            (Returns out, World (<[out := wav]> (fs w)) (trace w) (wav_path w))
        end
    end.

(** The loop of [transcribe_audio] over the engine's segments. *)
Fixpoint collect_segments (segments : list Segment)
    (transcript_parts : list string) (diarization : list pyval)
    : list string * list pyval :=
  match segments with
  | [] => (transcript_parts, diarization)
  | seg :: segments' =>
      let text := PyStr.strip (seg_text seg) in
      if PyStr.nonempty text
      then collect_segments segments'
             (transcript_parts ++ [text])
             (diarization ++ [PDict [("start", PFloat (seg_start seg));
                                     ("end", PFloat (seg_end seg));
                                     ("text", PStr text)]])
      else collect_segments segments' transcript_parts diarization
  end.

Definition transcribe_audio (env : Env) (wav : string) : M (string * list pyval) :=
  run emit (EvTranscribe wav);
  fun w =>
    match fs w !! wav with
    | None => (Raises (Exception "No such file or directory"), w)
    | Some content =>
        match whisper_transcribe env content with
        | ExtRaise msg => (Raises (Exception msg), w)
        | ExtOk segments =>
            let '(parts, diarization) := collect_segments segments [] [] in
            (Returns (PyStr.strip (PyStr.join " " parts), diarization), w)
        end
    end.

(* ===================================================================== *)
(** ** 6. Gemini structured extract                                       *)
(* ===================================================================== *)

(** [GEMINI_MODEL.generate_content(prompt, generation_config=cfg)] followed
    by [response.text or ""]. *)
Definition generate_content (model : prompt -> generation_config -> ext string)
    (p : prompt) (cfg : generation_config) : M string :=
  run emit (EvGenerate p cfg);
  of_ext (model p cfg).

(** The result of [local_extract] as the dict the source builds. *)
Definition task_to_py (t : Task) : pyval :=
  PDict [("speaker", PStr (speaker t));
         ("assignee", PStr (assignee t));
         ("task", PStr (task t));
         ("deadline", match deadline t with Some d => PStr d | None => PNone end);
         ("source", PStr (source t))].

Definition record_to_py (r : StructuredRecord) : list (string * pyval) :=
  [("summary", PStr (summary r));
   ("action_points", PList (map PStr (action_points r)));
   ("tasks", PList (map task_to_py (tasks r)));
   ("deadlines", PList (map PStr (deadlines r)));
   ("speakers", PList (map PStr (speakers r)))].

(** The five [parsed.setdefault(...)] calls; a value that is not a dict has
    no such method. *)
Definition sanity_defaults (parsed : pyval) : outcome (list (string * pyval)) :=
  match parsed with
  | PDict d =>
      let d := Py.setdefault d "summary" (PStr NO_SUMMARY) in
      let d := Py.setdefault d "action_points" (PList []) in
      let d := Py.setdefault d "tasks" (PList []) in
      let d := Py.setdefault d "deadlines" (PList []) in
      let d := Py.setdefault d "speakers" (PList []) in
      Returns d
  | _ => Raises (Exception ("'" ++ Py.type_name parsed
                            ++ "' object has no attribute 'setdefault'"))
  end.

(** The part of the [try] block after the model has answered. *)
Definition parse_model_json (env : Env) (content : string)
    : outcome (list (string * pyval)) :=
  let start := PyStr.find "{" content in
  let end_ := PyStr.rfind "}" content in
  if (start =? -1)%Z || (end_ =? -1)%Z
  then Raises (Exception "Gemini did not return a JSON object.")
  else
    let json_str := PyStr.slice content start (end_ + 1) in
    match json_loads env json_str with
    | ExtRaise msg => Raises (Exception msg)
    | ExtOk parsed => sanity_defaults parsed
    end.

Definition gemini_extract_structured (env : Env) (text : string)
    : M (list (string * pyval)) :=
  match GEMINI_MODEL env with
  | None => raise (Exception "Gemini model not initialized (API key missing or invalid).")
  | Some model =>
      try_except
        (do content <- generate_content model (ExtractPrompt text)
                          (GenConfig 0.1%float GEMINI_MAX_TOKENS);
         lift (parse_model_json env content))
        (fun e => raise (Exception ("Gemini call failed: " ++ Py.str_exn e)))
  end.

(* ===================================================================== *)
(** ** 7. Gemini extra features                                           *)
(* ===================================================================== *)

Definition EMAIL_UNAVAILABLE : string := "Gemini not available for email generation.".
Definition WHATSAPP_UNAVAILABLE : string := "Gemini not available for WhatsApp summary.".

Definition gemini_generate_followup_email (env : Env) (summary tasks : pyval)
    : M string :=
  match GEMINI_MODEL env with
  | None => ret EMAIL_UNAVAILABLE
  | Some model =>
      try_except
        (do text <- generate_content model (EmailPrompt summary tasks)
                       (GenConfig GEMINI_TEMPERATURE GEMINI_MAX_TOKENS);
         ret (PyStr.strip text))
        (fun e => ret ("Email generation failed: " +:+ Py.str_exn e))
  end.

Definition gemini_generate_whatsapp (env : Env) (summary : pyval) : M string :=
  match GEMINI_MODEL env with
  | None => ret WHATSAPP_UNAVAILABLE
  | Some model =>
      try_except
        (do text <- generate_content model (WhatsappPrompt summary)
                       (GenConfig 0.2%float 300);
         ret (PyStr.strip text))
        (fun e => ret ("WhatsApp summary failed: " +:+ Py.str_exn e))
  end.

Definition gemini_translate_summary (env : Env) (summary : pyval)
    (target_lang : string) : M pyval :=
  match GEMINI_MODEL env with
  | None => ret summary
  | Some model =>
      if negb (PyStr.nonempty target_lang) then ret summary
      else
        try_except
          (do resp <- generate_content model (TranslatePrompt summary target_lang)
                         (GenConfig 0.0%float 400);
           let text := PyStr.strip resp in
           ret (if PyStr.nonempty text then PStr text else summary))
          (fun _ => ret summary)
  end.

(* ===================================================================== *)
(** ** 8. Markdown formatter                                              *)
(* ===================================================================== *)

Definition obind {A B} (o : outcome A) (k : A -> outcome B) : outcome B :=
  match o with
  | Returns a => k a
  | Raises e => Raises e
  end.

(** [for a in items: out += f"  - {a}\n"] *)
Fixpoint render_bullets (env : Env) (items : list pyval) (out : string) : string :=
  match items with
  | [] => out
  | a :: items' => render_bullets env items' (out +:+ "  - " +:+ fmt env a +:+ nl)
  end.

(** The loop over [tasks]: every item must offer [.get]. *)
Fixpoint render_tasks (env : Env) (items : list pyval) (out : string)
    : outcome string :=
  match items with
  | [] => Returns out
  | t :: items' =>
      obind (Py.method_get t "assignee") (fun a =>
      obind (Py.method_get t "speaker") (fun sp =>
      obind (Py.method_get t "task") (fun tk =>
      obind (Py.method_get t "deadline") (fun dl =>
        let assignee := Py.or_ (Py.or_ a sp) (PStr "Unknown") in
        let task_text := Py.or_ tk (PStr "") in
        let deadline := Py.or_ dl (PStr "No deadline") in
        render_tasks env items'
          (out +:+ "  - **" +:+ fmt env assignee +:+ "** → " +:+ fmt env task_text
               +:+ " _(Deadline: " +:+ fmt env deadline +:+ ")_" +:+ nl)))))
  end.

Definition email_failed (followup_email : string) : bool :=
  PyStr.startswith (PyStr.lower followup_email) "email generation failed".

Definition whatsapp_failed (whatsapp_msg : string) : bool :=
  PyStr.startswith (PyStr.lower whatsapp_msg) "whatsapp summary failed".

Definition format_markdown_block (env : Env) (data : list (string * pyval))
    (followup_email whatsapp_msg : string) : outcome string :=
  let summary := Py.get data "summary" (PStr "No summary available.") in
  let action_points := Py.or_ (Py.get data "action_points" PNone) (PList []) in
  let tasks := Py.or_ (Py.get data "tasks" PNone) (PList []) in
  let deadlines := Py.or_ (Py.get data "deadlines" PNone) (PList []) in
  let out := "" in
  (* Summary *)
  let out := out +:+ "- **Summary**" +:+ nl in
  let out := out +:+ "  - " +:+ fmt env summary +:+ nl +:+ nl in
  (* Action points *)
  let out := out +:+ "- **Action points**" +:+ nl in
  obind (if Py.truthy action_points
         then obind (Py.iter action_points) (fun items =>
                Returns (render_bullets env items out))
         else Returns (out +:+ "  - None detected." +:+ nl)) (fun out =>
  let out := out +:+ nl in
  (* Tasks *)
  let out := out +:+ "- **Tasks assigned to specific people**" +:+ nl in
  obind (if Py.truthy tasks
         then obind (Py.iter tasks) (fun items => render_tasks env items out)
         else Returns (out +:+ "  - No explicit tasks found." +:+ nl)) (fun out =>
  let out := out +:+ nl in
  (* Deadlines *)
  let out := out +:+ "- **Deadlines**" +:+ nl in
  obind (if Py.truthy deadlines
         then obind (Py.iter deadlines) (fun items =>
                Returns (render_bullets env items out))
         else Returns (out +:+ "  - None mentioned." +:+ nl)) (fun out =>
  let out := out +:+ nl in
  (* Follow-up email *)
  let out := out +:+ "- **Follow-up emails**" +:+ nl in
  let out :=
    if PyStr.nonempty followup_email && negb (email_failed followup_email)
    then out +:+ "  - Draft ready below:" +:+ nl +:+ nl
             +:+ "```text" +:+ nl
             +:+ PyStr.strip followup_email +:+ nl
             +:+ "```" +:+ nl
    else out +:+ "  - Could not generate email." +:+ nl in
  let out := out +:+ nl in
  (* Sends it to *)
  let out := out +:+ "⿤ **Sends it to**" +:+ nl in
  (* WhatsApp *)
  let out := out +:+ "- **WhatsApp** — copy & paste this recap:" +:+ nl +:+ nl in
  let out :=
    if PyStr.nonempty whatsapp_msg && negb (whatsapp_failed whatsapp_msg)
    then out +:+ "```text" +:+ nl
             +:+ PyStr.strip whatsapp_msg +:+ nl
             +:+ "```" +:+ nl
    else out +:+ "_No WhatsApp summary generated._" +:+ nl in
  let out := out +:+ nl in
  (* Email *)
  let out := out +:+ "- **Email** — use the follow-up email draft above to send to participants."
                 +:+ nl in
  Returns out))).

(* ===================================================================== *)
(** ** 9. API endpoint                                                    *)
(* ===================================================================== *)

(** [rel.split("/")] *)
Fixpoint slash_pieces (rel : string) : list string :=
  match rel with
  | EmptyString => [EmptyString]
  | String c rel' =>
      if Ascii.eqb c "/" then EmptyString :: slash_pieces rel'
      else match slash_pieces rel' with
           | [] => [String c EmptyString]
           | p :: ps => String c p :: ps
           end
  end.

(** The components [pathlib] keeps of a relative path: the pieces between
    the slashes, without the empty ones and the single dots. *)
Definition path_parts (rel : string) : list string :=
  List.filter (fun p => PyStr.nonempty p && negb (String.eqb p "."))
    (slash_pieces rel).

(** [Path(dir) / rel] *)
Definition path_join (dir rel : string) : string :=
  dir +:+ "/" +:+ PyStr.join "/" (path_parts rel).

(** The longest file name, in bytes, of a POSIX file system. *)
Definition NAME_MAX : nat := 255.

Definition NUL : ascii := ascii_of_nat 0.

(** Whether [open(Path(dir) / rel, "wb")] can create the file, [dir] being
    a writable directory that holds files only: [rel] has no NUL byte and
    names one component, of at most [NAME_MAX] bytes.  A second component
    would have the first one name a directory, and there is none. *)
Definition openable (rel : string) : bool :=
  negb (PyStr.contains rel (String NUL EmptyString))
  && match path_parts rel with
     | [name] => (String.length name <=? NAME_MAX)%nat
     | _ => false
     end.

(** [str(e)] of the exception [open] raises when it cannot: [ValueError]
    from the interpreter, or the [OSError] of the first component the
    kernel rejects. *)
Definition open_failure (env : Env) (rel path : string) : string :=
  if PyStr.contains rel (String NUL EmptyString) then "embedded null byte"
  else match path_parts rel with
       | [] => "[Errno 21] Is a directory: " +:+ py_repr env path
       | first :: _ =>
           if (String.length first <=? NAME_MAX)%nat
           then "[Errno 2] No such file or directory: " +:+ py_repr env path
           else "[Errno 36] File name too long: " +:+ py_repr env path
       end.

(** [open(tmp_path, "wb")], [tmp_path] being [Path(dir) / rel]: the file
    exists and is empty, or the call raises and nothing is created. *)
Definition open_wb (env : Env) (rel path : string) : M unit :=
  fun w =>
    if openable rel
    then (Returns tt, World (<[path := []]> (fs w)) (trace w) (wav_path w))
    else (Raises (Exception (open_failure env rel path)), w).

(** [f.write(chunk)] *)
Definition file_write (path : string) (chunk : bytes) : M unit :=
  fun w => (Returns tt,
            World (<[path := default [] (fs w !! path) ++ chunk]> (fs w))
                  (trace w) (wav_path w)).

(** [while True: chunk = await audio.read(1024 * 1024); ...] *)
Fixpoint save_chunks (path : string) (rs : list (ext bytes)) : M unit :=
  match rs with
  | [] => ret tt
  | ExtRaise msg :: _ => raise (Exception msg)
  | ExtOk [] :: _ => ret tt
  | ExtOk chunk :: rs' => run file_write path chunk; save_chunks path rs'
  end.

(** [path.exists()] *)
Definition path_exists (path : string) : M bool :=
  fun w => (Returns (bool_decide (is_Some (fs w !! path))), w).

(** [path.unlink()] guarded by [path.exists()] *)
Definition unlink_if_exists (path : string) (files : gmap string bytes)
    : gmap string bytes :=
  if bool_decide (is_Some (files !! path)) then delete path files else files.

(** The [finally] clause: delete the upload, and the WAV when the local
    [wav_path] is bound.  Deleting an existing file of the temporary
    directory is taken to succeed, so the [except Exception: pass] around
    the two deletions has nothing to catch. *)
Definition cleanup (tmp_path : string) (w : world) : world :=
  let files := unlink_if_exists tmp_path (fs w) in
  let files :=
    match wav_path w with
    | Some wav => unlink_if_exists wav files
    | None => files
    end in
  World files (trace w) (wav_path w).

Definition bind_wav_path (wav : string) : M unit :=
  fun w => (Returns tt, World (fs w) (trace w) (Some wav)).

(** Whether the request asks for a translation. *)
Definition wants_translation (target_lang : option string) : bool :=
  match target_lang with
  | Some tl =>
      PyStr.nonempty tl
      && negb (bool_decide (PyStr.lower tl ∈ ["none"; "original"; "auto"]))
  | None => false
  end.

Definition opt_str (o : option string) : pyval :=
  match o with Some s => PStr s | None => PNone end.

(** The two-tier extraction: the note and the extracted dict. *)
Definition extract_with_fallback (env : Env) (transcript : string)
    : M (string * list (string * pyval)) :=
  try_except
    (do extracted <- gemini_extract_structured env transcript;
     ret ("", extracted))
    (fun e =>
       ret ("Note: Gemini failed, using local extraction instead. ("
              +:+ Py.str_exn e +:+ ")",
            record_to_py (local_extract transcript))).

(** The [try] block of [summarize_meeting] from the transcription on, once
    [wav_path] is bound to [wav]. *)
Definition process_wav (env : Env) (wav : string) (target_lang : option string)
    : M pyval :=
  do tr <- transcribe_audio env wav;
  let transcript := fst tr in
  let diarization := snd tr in
  if negb (PyStr.nonempty (PyStr.strip transcript))
  then raise (HTTPException 400 "Transcription is empty.")
  else
    do ne <- extract_with_fallback env transcript;
    let note := fst ne in
    let extracted := snd ne in
    let summary_text := Py.get extracted "summary" (PStr "") in
    let tasks := Py.get extracted "tasks" (PList []) in
    do followup_email <- gemini_generate_followup_email env summary_text tasks;
    do whatsapp_msg <- gemini_generate_whatsapp env summary_text;
    do translated_summary <-
      match target_lang with
      | Some tl =>
          if wants_translation target_lang
          then gemini_translate_summary env summary_text tl
          else ret PNone
      | None => ret PNone
      end;
    do structured_markdown <-
      lift (format_markdown_block env extracted followup_email whatsapp_msg);
    ret (PDict [
      ("transcript", PStr transcript);
      ("diarization", PList diarization);
      ("summary", summary_text);
      ("action_points", Py.get extracted "action_points" (PList []));
      ("tasks", tasks);
      ("deadlines", Py.get extracted "deadlines" (PList []));
      ("speakers", Py.get extracted "speakers" (PList []));
      ("structured_summary", PStr structured_markdown);
      ("followup_email", PStr followup_email);
      ("whatsapp", PStr whatsapp_msg);
      ("translated_summary", translated_summary);
      ("target_lang", opt_str target_lang);
      ("note", PStr note)
    ]).

(** The body of the [try] block of [summarize_meeting]. *)
Definition process (env : Env) (tmp_path : string) (target_lang : option string)
    : M pyval :=
  do wav <- convert_to_wav env tmp_path;
  run bind_wav_path wav;
  process_wav env wav target_lang.

(** [f"up_{audio.filename}"] *)
Definition upload_name (env : Env) (audio : UploadFile) : string :=
  "up_" +:+ fmt env (opt_str (filename audio)).

(** [Path(tempfile.gettempdir()) / f"up_{audio.filename}"] *)
Definition upload_path (env : Env) (audio : UploadFile) : string :=
  path_join (tempdir env) (upload_name env audio).

Definition summarize_meeting (env : Env) (audio : UploadFile)
    (target_lang : option string) : M pyval :=
  fun w0 =>
    let tmp_path := upload_path env audio in
    (run open_wb env (upload_name env audio) tmp_path;
     run save_chunks tmp_path (reads audio);
     do saved <- path_exists tmp_path;
     if negb saved
     then raise (HTTPException 400 "Failed to save uploaded file.")
     else try_finally (process env tmp_path target_lang) (cleanup tmp_path))
      (World (fs w0) (trace w0) None).

(* ===================================================================== *)
(** ** Specification-side definitions                                     *)
(* ===================================================================== *)

(** The Task built from a match of a task pattern in sentence [s] and the
    deadline found for it. *)
Definition task_of_match (m : rmatch) (dline : option string) (s : string) : Task :=
  MkTask (group m 1) (group m 1) (PyStr.strip (group m 2)) dline s.

(** Every deadline phrase of [s]: one per deadline pattern that matches, in
    declared order. *)
Definition deadline_matches (s : string) : list string :=
  omap (fun dp => group0 <$> search true dp s) DEADLINE_PATTERNS.

(** The deadline of a task of [s]: the first deadline pattern that matches. *)
Definition first_deadline (s : string) : option string :=
  head (deadline_matches s).

(** The task patterns that match [s], in declared order, with their matches. *)
Definition task_matches (s : string) : list rmatch :=
  omap (fun pat => search false pat s) TASK_PATTERNS.

(** One Task per matching task pattern. *)
Definition sentence_tasks (s : string) : list Task :=
  map (fun m => task_of_match m (first_deadline s) s) (task_matches s).

(** What sentence [s] appends to [deadlines]: the deadline of each of its
    tasks, then every deadline phrase of the sentence. *)
Definition sentence_deadlines (s : string) : list string :=
  flat_map (fun _ => option_list (first_deadline s)) (task_matches s)
  ++ deadline_matches s.

(** The accumulators when the sentence loop ends. *)
Definition collected (text : string) : acc :=
  fold_left sentence_step (sentences_of text) (Acc [] [] []).

(** The position of the first occurrence of [x] in [xs]. *)
Fixpoint first_index (x : string) (xs : list string) : option nat :=
  match xs with
  | [] => None
  | y :: ys => if bool_decide (y = x) then Some 0%nat else S <$> first_index x ys
  end.

(** [ys] lists its entries in the order in which they first occur in [xs]. *)
Definition first_seen_order (xs ys : list string) : Prop :=
  forall i j x y, ys !! i = Some x -> ys !! j = Some y -> (i < j)%nat ->
    exists p q, first_index x xs = Some p /\ first_index y xs = Some q /\ (p < q)%nat.

(** A string made of white space only. *)
Fixpoint all_space (s : string) : bool :=
  match s with
  | EmptyString => true
  | String c s' => PyStr.is_space c && all_space s'
  end.


Definition is_translate (e : event) : bool :=
  match e with
  | EvGenerate (TranslatePrompt _ _) _ => true
  | _ => false
  end.

Definition FIVE_KEYS : list string :=
  ["summary"; "action_points"; "tasks"; "deadlines"; "speakers"].

(** The default the tier-1 extractor gives a key the model left out. *)
Definition key_default (k : string) : pyval :=
  if String.eqb k "summary" then PStr NO_SUMMARY else PList [].

(** The outcome of tier 1 on a transcript; it does not depend on the world. *)
Definition tier1 (env : Env) (transcript : string)
    : outcome (list (string * pyval)) :=
  fst (gemini_extract_structured env transcript (World ∅ [] None)).

(** A computation keeps relation [R] when every run relates the world it
    starts in to the world it ends in. *)
Definition keeps (R : world -> world -> Prop) {A} (m : M A) : Prop :=
  forall w, R w (snd (m w)).

(** The files and the local [wav_path] are untouched. *)
Definition same_files (w w' : world) : Prop :=
  fs w' = fs w /\ wav_path w' = wav_path w.

(** The trace only grows; when [quiet] is set, by no translation call. *)
Definition trace_grows (quiet : bool) (w w' : world) : Prop :=
  exists evs, trace w' = trace w ++ evs
              /\ (quiet = true -> Forall (fun e => is_translate e = false) evs).

(** Whether the save loop reaches the end of the upload: no [audio.read]
    raises before the stream is exhausted. *)
Fixpoint upload_readable (rs : list (ext bytes)) : bool :=
  match rs with
  | [] => true
  | ExtRaise _ :: _ => false
  | ExtOk [] :: _ => true
  | ExtOk _ :: rs' => upload_readable rs'
  end.

(** The bytes the save loop writes. *)
Fixpoint uploaded_bytes (rs : list (ext bytes)) : bytes :=
  match rs with
  | [] => []
  | ExtRaise _ :: _ => []
  | ExtOk [] :: _ => []
  | ExtOk chunk :: rs' => chunk ++ uploaded_bytes rs'
  end.

(** The target languages for which nothing is translated: omitted, empty,
    or one of none / original / auto in any letter case. *)
Definition no_translation_requested (target_lang : option string) : Prop :=
  target_lang = None
  \/ target_lang = Some EmptyString
  \/ exists t, target_lang = Some t /\ PyStr.lower t ∈ ["none"; "original"; "auto"].

(** A text given line by line, each line ended by a newline. *)
Fixpoint unlines (ls : list string) : string :=
  match ls with
  | [] => EmptyString
  | l :: ls' => l +:+ nl +:+ unlines ls'
  end.

(** *** Fixtures: small environments used to run the model on examples *)

Definition b0 : Byte.byte := Byte.x00.

Definition demo_segments : list Segment :=
  [MkSegment 0%float 1.5%float " Priya will send the report by Friday. ";
   MkSegment 1.5%float 2%float "   ";
   MkSegment 2%float 4%float "The team agreed on the new logo."].

(** A model that answers the extraction prompt with an empty JSON object
    wrapped in prose, and the other prompts with plain text. *)
Definition demo_model (p : prompt) (_ : generation_config) : ext string :=
  match p with
  | ExtractPrompt _ => ExtOk "Here is the JSON: {} Done."
  | EmailPrompt _ _ => ExtOk " Subject: Recap "
  | WhatsappPrompt _ => ExtOk "Logo agreed"
  | TranslatePrompt _ _ => ExtOk "   "
  end.

(** A model whose every call fails. *)
Definition failing_model (_ : prompt) (_ : generation_config) : ext string :=
  ExtRaise "503 service unavailable".

Definition demo_json_loads (s : string) : ext pyval :=
  if String.eqb s "{}" then ExtOk (PDict [])
  else ExtRaise "Expecting value: line 1 column 1 (char 0)".

Definition demo_format (v : pyval) : string :=
  match v with
  | PNone => "None"
  | PList [] => "[]"
  | _ => "?"
  end.

(** A stand-in for [Path.with_suffix]: the extension after the last dot of
    the file name, when there is one, is replaced. *)
Definition demo_with_suffix (path suffix : string) : string :=
  let dot := PyStr.rfind "." path in
  let slash := PyStr.rfind "/" path in
  if (slash + 1 <? dot)%Z then PyStr.slice path 0 dot +:+ suffix
  else path +:+ suffix.

(** A stand-in for [repr] on a string without quotes or escapes. *)
Definition demo_repr (s : string) : string := "'" +:+ s +:+ "'".

Definition mk_env (model : option (prompt -> generation_config -> ext string)) : Env :=
  MkEnv "/tmp" demo_with_suffix demo_format demo_repr demo_json_loads
        (fun content => ExtOk content)
        (fun _ => ExtOk demo_segments)
        model.

Definition demo_env : Env := mk_env (Some demo_model).
Definition fallback_env : Env := mk_env (Some failing_model).
Definition offline_env : Env := mk_env None.

Definition demo_audio : UploadFile :=
  MkUpload (Some "standup.mp3") [ExtOk [b0; b0]; ExtOk [b0]; ExtOk []].

(** An upload whose stream breaks after the first chunk. *)
Definition broken_audio : UploadFile :=
  MkUpload (Some "standup.mp3") [ExtOk [b0; b0]; ExtRaise "client disconnected"].

Definition empty_world : world := World ∅ [] None.

(** One chunk as [audio.read(1024 * 1024)] returns it from a long stream. *)
Definition mib_chunk : bytes := b0 :: repeat b0 (Z.to_nat (1024 * 1024 - 1)).

(** An upload of 2049 chunks of one MiB: one MiB more than the limit. *)
Definition huge_audio : UploadFile :=
  MkUpload (Some "board-meeting.mp3") (repeat (ExtOk mib_chunk) 2049).

(** *** Definitions for the further properties *)

(** Every character of [s] satisfies [f]. *)
Fixpoint str_forall (f : ascii -> bool) (s : string) : bool :=
  match s with
  | EmptyString => true
  | String c s' => f c && str_forall f s'
  end.

(** [s] does not start with white space. *)
Definition starts_clean (s : string) : bool :=
  match s with
  | EmptyString => true
  | String c _ => negb (PyStr.is_space c)
  end.

(** [s] does not end with white space. *)
Fixpoint ends_clean (s : string) : bool :=
  match s with
  | EmptyString => true
  | String c EmptyString => negb (PyStr.is_space c)
  | String _ s' => ends_clean s'
  end.

(** A text without white space at either end. *)
Definition trimmed (s : string) : bool := starts_clean s && ends_clean s.

(** The segments [transcribe_audio] keeps: those whose text is not blank. *)
Definition kept_segments (segments : list Segment) : list Segment :=
  List.filter (fun seg => PyStr.nonempty (PyStr.strip (seg_text seg))) segments.

Definition segment_entry (seg : Segment) : pyval :=
  PDict [("start", PFloat (seg_start seg));
         ("end", PFloat (seg_end seg));
         ("text", PStr (PyStr.strip (seg_text seg)))].

(** A world in which a converted recording is on disk. *)
Definition wav_world : world :=
  World {[ "/tmp/up_standup.wav" := [b0; b0; b0] ]} [] None.

(** The character [c] does not occur in [s]. *)
Definition lacks (c : ascii) (s : string) : bool :=
  str_forall (fun d => negb (Ascii.eqb c d)) s.

(** A model that answers the extraction prompt with an object whose tasks
    are plain strings. *)
Definition sloppy_tasks : list (string * pyval) :=
  [("summary", PStr "Weekly sync."); ("tasks", PList [PStr "call Bob"])].

(** The numbers of the capturing groups of a pattern. *)
Fixpoint groups_of (r : regex) : list nat :=
  match r with
  | RSeq r1 r2 | RAlt r1 r2 => groups_of r1 ++ groups_of r2
  | RGroup n r' => n :: groups_of r'
  | _ => []
  end.

(** A capitalised word: an upper-case letter, then one or more lower-case
    letters. *)
Definition is_name (s : string) : bool :=
  match s with
  | EmptyString => false
  | String c rest =>
      PyStr.is_upper c && PyStr.nonempty rest && str_forall PyStr.is_lower rest
  end.

(** A pattern that starts with the name group and captures group 1 nowhere
    else. *)
Definition starts_with_name (r : regex) : Prop :=
  exists tail, r = RSeq name_group tail /\ ~ In 1%nat (groups_of tail).

(** The characters after which a sentence may end: [.], [!], [?]. *)
Definition is_punct (c : ascii) : bool :=
  cset_mem (CUnion (CChar ".") (CUnion (CChar "!") (CChar "?"))) c.

Fixpoint last_char (s : string) : option ascii :=
  match s with
  | EmptyString => None
  | String c EmptyString => Some c
  | String _ s' => last_char s'
  end.

(** [s] ends with [.], [!] or [?]. *)
Definition ends_punct (s : string) : bool :=
  match last_char s with
  | Some c => is_punct c
  | None => false
  end.

(** Every item of the list except the last satisfies [f]. *)
Fixpoint all_but_last (f : string -> bool) (l : list string) : bool :=
  match l with
  | [] => true
  | [_] => true
  | x :: l' => f x && all_but_last f l'
  end.

(** The character before the cursor is not one after which a sentence may
    end. *)
Definition not_punct (p : option ascii) : Prop :=
  forall c, p = Some c -> is_punct c = false.

(** A computation adds at most [n] calls selected by [f] to the trace. *)
Definition counts_at_most (f : event -> bool) (n : nat) {A} (m : M A) : Prop :=
  forall w, exists evs,
    trace (snd (m w)) = trace w ++ evs /\ (length (List.filter f evs) <= n)%nat.

Definition is_generate (e : event) : bool :=
  match e with EvGenerate _ _ => true | _ => false end.

Definition is_extract (e : event) : bool :=
  match e with EvGenerate (ExtractPrompt _) _ => true | _ => false end.

Definition any_event (e : event) : bool := true.

Definition RESPONSE_KEYS : list string :=
  ["transcript"; "diarization"; "summary"; "action_points"; "tasks"; "deadlines";
   "speakers"; "structured_summary"; "followup_email"; "whatsapp";
   "translated_summary"; "target_lang"; "note"].

(** Environments for the error paths: a decoder that rejects the upload,
    and a speech engine that hears nothing but white space. *)
Definition undecodable_env : Env :=
  MkEnv "/tmp" demo_with_suffix demo_format demo_repr demo_json_loads
        (fun _ => ExtRaise "Decoding failed. ffmpeg returned error code: 1")
        (fun _ => ExtOk demo_segments)
        (Some demo_model).




(** Text in the ASCII range: on it the white-space, digit and letter-case
    classes of the model are exactly those of Python. *)
Definition ascii_text (s : string) : bool :=
  str_forall (fun c => (PyStr.code c <? 128)%nat) s.

Definition ascii_segments (segments : list Segment) : bool :=
  forallb (fun seg => ascii_text (seg_text seg)) segments.




(* ===================================================================== *)
(** * Properties                                                          *)
(* ===================================================================== *)

Local Close Scope py_scope.

(** ** Strings *)

Section StringFacts.

Lemma nonempty_true_iff (s : string) : PyStr.nonempty s = true <-> s <> EmptyString.
Proof. destruct s; simpl; split; congruence. Qed.

Lemma nonempty_false_iff (s : string) : PyStr.nonempty s = false <-> s = EmptyString.
Proof. destruct s; simpl; split; congruence. Qed.





Lemma prefix_app (p s : string) : String.prefix p (p +:+ s) = true.
Proof.
  induction p as [|c p IH]; simpl; [now destruct s|].
  destruct (ascii_dec c c); [exact IH | congruence].
Qed.


End StringFacts.

(** ** The matcher *)

Section MatcherFacts.

Variable ic : bool.






Lemma head_In {A} (l : list A) (x : A) : head l = Some x -> In x l.
Proof. destruct l; simpl; [discriminate|]. intros [= ->]. now left. Qed.


End MatcherFacts.



(** ** The sentence loop *)

Section LoopFacts.

Local Opaque search DEADLINE_PATTERNS.

Lemma task_deadline_loop_spec dps s dl :
  let d := head (omap (fun dp => group0 <$> search true dp s) dps) in
  task_deadline_loop dps s dl = (d, dl ++ option_list d).
Proof.
  induction dps as [|dp dps IH]; simpl.
  - now rewrite app_nil_r.
  - destruct (search true dp s); simpl; [reflexivity | exact IH].
Qed.

Lemma deadline_loop_spec dps s dl :
  deadline_loop dps s dl
  = dl ++ omap (fun dp => group0 <$> search true dp s) dps.
Proof.
  revert dl. induction dps as [|dp dps IH]; intros dl; simpl.
  - now rewrite app_nil_r.
  - destruct (search true dp s); simpl; rewrite IH; [|reflexivity].
    now rewrite <- app_assoc.
Qed.

Lemma task_loop_spec pats s a :
  let ms := omap (fun pat => search false pat s) pats in
  task_loop pats s a
  = Acc (acc_action_points a)
        (acc_tasks a ++ map (fun m => task_of_match m (first_deadline s) s) ms)
        (acc_deadlines a ++ flat_map (fun _ => option_list (first_deadline s)) ms).
Proof.
  revert a. induction pats as [|pat pats IH]; intros a; simpl.
  - rewrite !app_nil_r. now destruct a.
  - destruct (search false pat s) as [m|]; simpl; [|apply IH].
    rewrite task_deadline_loop_spec. fold (deadline_matches s) (first_deadline s).
    rewrite IH. simpl. rewrite <- !app_assoc. reflexivity.
Qed.

(** One sentence: its action point, its tasks, its deadline phrases. *)
Lemma sentence_step_spec a s :
  sentence_step a s
  = Acc (acc_action_points a ++ (if is_action_point s then [s] else []))
        (acc_tasks a ++ sentence_tasks s)
        (acc_deadlines a ++ sentence_deadlines s).
Proof.
  unfold sentence_step. rewrite !task_loop_spec, deadline_loop_spec.
  fold (task_matches s) (deadline_matches s) (sentence_tasks s).
  unfold sentence_deadlines. rewrite app_assoc.
  destruct (is_action_point s); simpl; [reflexivity|].
  now rewrite app_nil_r.
Qed.

Lemma sentence_loop_spec ss a :
  fold_left sentence_step ss a
  = Acc (acc_action_points a ++ List.filter is_action_point ss)
        (acc_tasks a ++ flat_map sentence_tasks ss)
        (acc_deadlines a ++ flat_map sentence_deadlines ss).
Proof.
  revert a. induction ss as [|s ss IH]; intros a; simpl.
  - rewrite !app_nil_r. now destruct a.
  - rewrite IH, sentence_step_spec. simpl. rewrite <- !app_assoc.
    destruct (is_action_point s); reflexivity.
Qed.

Lemma collected_spec text :
  collected text
  = Acc (List.filter is_action_point (sentences_of text))
        (flat_map sentence_tasks (sentences_of text))
        (flat_map sentence_deadlines (sentences_of text)).
Proof. unfold collected. now rewrite sentence_loop_spec. Qed.

Lemma task_matches_length s : (length (task_matches s) <= 3)%nat.
Proof.
  unfold task_matches, TASK_PATTERNS. simpl.
  repeat match goal with |- context [search false ?r s] =>
    destruct (search false r s) end; simpl; lia.
Qed.

End LoopFacts.

(** ** De-duplication through [dict.fromkeys] *)

Section DictFacts.

Implicit Types (x y z : string) (xs acc : list string).

Lemma first_index_None z xs : first_index z xs = None <-> z ∉ xs.
Proof.
  induction xs as [|y xs IH]; simpl.
  - split; [intros _; apply not_elem_of_nil | reflexivity].
  - case_bool_decide as E.
    + subst. split; [discriminate|]. intros H. destruct H. apply list_elem_of_here.
    + rewrite not_elem_of_cons. destruct (first_index z xs); simpl.
      * split; [discriminate|]. intros [_ H]. now apply IH in H.
      * split; [|reflexivity]. intros _. split; [congruence | now apply IH].
Qed.

Lemma first_index_app z xs ys :
  first_index z (xs ++ ys)
  = match first_index z xs with
    | Some p => Some p
    | None => (fun n => length xs + n)%nat <$> first_index z ys
    end.
Proof.
  induction xs as [|y xs IH]; simpl.
  - now destruct (first_index z ys).
  - case_bool_decide; [reflexivity|]. rewrite IH.
    destruct (first_index z xs); simpl; [reflexivity|].
    now destruct (first_index z ys).
Qed.

Lemma first_index_lt z xs p : first_index z xs = Some p -> (p < length xs)%nat.
Proof.
  revert p. induction xs as [|y xs IH]; simpl; intros p; [discriminate|].
  case_bool_decide; [intros [= <-]; lia|].
  destruct (first_index z xs) as [q|]; simpl; [|discriminate].
  intros [= <-]. specialize (IH q eq_refl). lia.
Qed.

Lemma first_index_NoDup xs i x :
  NoDup xs -> xs !! i = Some x -> first_index x xs = Some i.
Proof.
  intros Hnd. revert i. induction Hnd as [|y xs Hy Hnd IH]; intros i; [discriminate|].
  destruct i as [|i]; simpl.
  - intros [= ->]. now rewrite bool_decide_eq_true_2.
  - intros Hi. rewrite bool_decide_eq_false_2.
    + now rewrite (IH i Hi).
    + intros ->. apply Hy. eapply list_elem_of_lookup_2, Hi.
Qed.

Lemma dict_add_key_NoDup acc x : NoDup acc -> NoDup (dict_add_key acc x).
Proof.
  intros H. unfold dict_add_key. case_bool_decide; [assumption|].
  apply NoDup_app. split; [assumption|]. split.
  - intros y Hy Hx. apply list_elem_of_singleton in Hx. now subst.
  - apply NoDup_singleton.
Qed.

Lemma fold_dict_NoDup xs acc :
  NoDup acc -> NoDup (fold_left dict_add_key xs acc).
Proof.
  revert acc. induction xs as [|x xs IH]; intros acc H; simpl; [assumption|].
  apply IH, dict_add_key_NoDup, H.
Qed.

Lemma fold_dict_elem xs acc z :
  z ∈ fold_left dict_add_key xs acc <-> z ∈ acc \/ z ∈ xs.
Proof.
  revert acc. induction xs as [|x xs IH]; intros acc; simpl.
  - split; [now left|]. intros [H|H]; [assumption|]. now apply elem_of_nil in H.
  - rewrite IH. unfold dict_add_key. rewrite elem_of_cons.
    case_bool_decide as E.
    + split; [tauto|]. intros [H|[->|H]]; tauto.
    + rewrite elem_of_app, list_elem_of_singleton. tauto.
Qed.

Lemma fold_dict_order xs acc i j x y :
  NoDup acc ->
  fold_left dict_add_key xs acc !! i = Some x ->
  fold_left dict_add_key xs acc !! j = Some y ->
  (i < j)%nat ->
  exists p q, first_index x (acc ++ xs) = Some p
           /\ first_index y (acc ++ xs) = Some q /\ (p < q)%nat.
Proof.
  revert acc. induction xs as [|x0 xs IH]; intros acc Hnd Hi Hj Hij; simpl in *.
  - rewrite app_nil_r. exists i, j.
    repeat split; try assumption; now apply first_index_NoDup.
  - assert (Hk : dict_add_key acc x0
                 = if bool_decide (x0 ∈ acc) then acc else acc ++ [x0])
      by reflexivity.
    rewrite Hk in Hi, Hj. clear Hk.
    destruct (bool_decide (x0 ∈ acc)) eqn:E;
      [apply bool_decide_eq_true in E | apply bool_decide_eq_false in E].
    + destruct (IH acc Hnd Hi Hj Hij) as (p & q & Hp & Hq & Hpq).
      rewrite first_index_app in Hp, Hq. rewrite !first_index_app. simpl.
      assert (Hshift : forall z n,
                 first_index z acc = None ->
                 (fun n => length acc + n)%nat <$> first_index z xs = Some n ->
                 (fun n => length acc + n)%nat
                   <$> (if bool_decide (x0 = z) then Some 0%nat
                        else S <$> first_index z xs) = Some (S n)
                 /\ (length acc <= n)%nat).
      { intros z n Hz Hn. apply first_index_None in Hz.
        rewrite bool_decide_eq_false_2 by (intros ->; contradiction).
        destruct (first_index z xs) as [m|]; simpl in *; [|discriminate].
        injection Hn as <-. split; [f_equal; lia | lia]. }
      destruct (first_index x acc) as [px|] eqn:Ex;
        destruct (first_index y acc) as [py|] eqn:Ey.
      * exists p, q. auto.
      * destruct (Hshift y q Ey Hq) as [Hq' Hle].
        exists p, (S q). repeat split; try assumption. lia.
      * destruct (Hshift x p Ex Hp) as [Hp' Hle].
        injection Hq as ->. apply first_index_lt in Ey. lia.
      * destruct (Hshift x p Ex Hp) as [Hp' _].
        destruct (Hshift y q Ey Hq) as [Hq' _].
        exists (S p), (S q). repeat split; try assumption. lia.
    + assert (Hnd' : NoDup (acc ++ [x0])).
      { apply (dict_add_key_NoDup acc x0) in Hnd. unfold dict_add_key in Hnd.
        now rewrite bool_decide_eq_false_2 in Hnd. }
      destruct (IH _ Hnd' Hi Hj Hij) as (p & q & Hp & Hq & Hpq).
      rewrite <- app_assoc in Hp, Hq. simpl in Hp, Hq. eauto.
Qed.

Lemma dict_fromkeys_NoDup xs : NoDup (dict_fromkeys xs).
Proof. apply fold_dict_NoDup, NoDup_nil_2. Qed.

Lemma dict_fromkeys_elem xs z : z ∈ dict_fromkeys xs <-> z ∈ xs.
Proof.
  unfold dict_fromkeys. rewrite fold_dict_elem. split; [|now right].
  intros [H|H]; [now apply elem_of_nil in H | assumption].
Qed.

Lemma dict_fromkeys_order xs : first_seen_order xs (dict_fromkeys xs).
Proof.
  intros i j x y Hi Hj Hij.
  apply (fold_dict_order xs [] i j x y (NoDup_nil_2)); assumption.
Qed.

End DictFacts.

(** ** Tier 2: the local extractor *)

(** C1, as the code has it: one sentence can emit more than one Task.  The
    transcript below is a single sentence; the first task pattern matches it
    at "Priya will ..." and the third at "Amit assigned to ...", and both
    matches are appended. *)
Lemma one_sentence_two_tasks :
  sentences_of "Priya will review the draft and Amit assigned to test."
  = ["Priya will review the draft and Amit assigned to test."]
  /\ tasks (local_extract "Priya will review the draft and Amit assigned to test.")
     = [ MkTask "Priya" "Priya" "review the draft and Amit assigned to test" None
           "Priya will review the draft and Amit assigned to test.";
         MkTask "Amit" "Amit" "test" None
           "Priya will review the draft and Amit assigned to test." ].
Proof. split; vm_compute; reflexivity. Qed.

(** C1 (amended): for every sentence every task pattern is tried, in
    declared order, and each pattern that matches emits its own Task, so a
    sentence yields at most three Tasks; and the scan of the sentence over
    the whole deadline pattern list runs independently of the task patterns
    and appends the phrase of every pattern that matches.  (The deadline of
    a Task is the phrase matched by the first deadline pattern, in declared
    order, that matches its sentence: the order is that of the patterns,
    not that of the phrases in the sentence.) *)
Theorem every_matching_task_pattern_emits (text : string) :
  tasks (local_extract text) = flat_map sentence_tasks (sentences_of text)
  /\ acc_deadlines (collected text)
     = flat_map sentence_deadlines (sentences_of text)
  /\ deadlines (local_extract text)
     = dict_fromkeys (flat_map sentence_deadlines (sentences_of text))
  /\ (forall a s,
        acc_tasks (sentence_step a s) = acc_tasks a ++ sentence_tasks s
        /\ acc_deadlines (sentence_step a s)
           = acc_deadlines a ++ sentence_deadlines s)
  /\ (forall s,
        length (sentence_tasks s) = length (task_matches s)
        /\ (length (sentence_tasks s) <= length TASK_PATTERNS)%nat
        /\ Forall (fun t => deadline t = first_deadline s /\ source t = s)
             (sentence_tasks s)
        /\ exists front, sentence_deadlines s = front ++ deadline_matches s).
Proof.
  split; [unfold local_extract; fold (collected text);
          rewrite collected_spec; reflexivity|].
  split; [rewrite collected_spec; reflexivity|].
  split; [unfold local_extract; fold (collected text);
          rewrite collected_spec; reflexivity|].
  split; [intros a s; rewrite sentence_step_spec; split; reflexivity|].
  intros s. unfold sentence_tasks. rewrite length_map.
  split; [reflexivity|]. split; [apply task_matches_length|]. split.
  - apply Forall_forall. intros t Ht.
    apply list_elem_of_In, in_map_iff in Ht. destruct Ht as (m & <- & _).
    split; reflexivity.
  - unfold sentence_deadlines. eexists. reflexivity.
Qed.

(** The deadline of a Task follows the order of the deadline patterns, not
    the order of the phrases in the sentence: "by ..." is the first
    pattern, so it wins over the "before ..." that stands earlier. *)
Example task_deadline_follows_pattern_order :
  tasks (local_extract "Sam will call before next meeting or by Friday.")
  = [MkTask "Sam" "Sam" "call before next meeting or by Friday" (Some "by Friday")
       "Sam will call before next meeting or by Friday."]
  /\ deadlines (local_extract "Sam will call before next meeting or by Friday.")
     = ["by Friday"; "before next meeting"].
Proof. split; vm_compute; reflexivity. Qed.



(** C5: the worked example of the specification. *)
Theorem local_extract_priya_report :
  let r := local_extract
    "Priya will send the report by Friday. The team agreed on the new logo." in
  (exists t, In t (tasks r)
             /\ assignee t = "Priya"
             /\ PyStr.contains (task t) "send the report" = true
             /\ deadline t = Some "by Friday")
  /\ In "by Friday" (deadlines r)
  /\ In "Priya will send the report by Friday." (action_points r).
Proof.
  assert (E : local_extract
      "Priya will send the report by Friday. The team agreed on the new logo."
    = MkRecord
        "Priya will send the report by Friday. The team agreed on the new logo."
        ["Priya will send the report by Friday."]
        [MkTask "Priya" "Priya" "send the report by Friday" (Some "by Friday")
           "Priya will send the report by Friday."]
        ["by Friday"]
        []) by (vm_compute; reflexivity).
  cbv zeta. rewrite E. simpl. split; [|split; left; reflexivity].
  eexists. split; [left; reflexivity|]. repeat split; reflexivity.
Qed.

(** C9: [action_points] and [deadlines] hold no text twice, hold exactly the
    texts the sentence loop collected (the action-point sentences, and the
    deadline phrases of all sentences), and list them in the order in which
    they were first collected. *)
Theorem local_extract_deduplicates (text : string) :
  let r := local_extract text in
  let seen := collected text in
  NoDup (action_points r)
  /\ NoDup (deadlines r)
  /\ (forall s, s ∈ action_points r <-> s ∈ acc_action_points seen)
  /\ (forall d, d ∈ deadlines r <-> d ∈ acc_deadlines seen)
  /\ first_seen_order (acc_action_points seen) (action_points r)
  /\ first_seen_order (acc_deadlines seen) (deadlines r)
  /\ acc_action_points seen = List.filter is_action_point (sentences_of text)
  /\ acc_deadlines seen = flat_map sentence_deadlines (sentences_of text).
Proof.
  cbv zeta. unfold local_extract. fold (collected text). simpl.
  split; [apply dict_fromkeys_NoDup|].
  split; [apply dict_fromkeys_NoDup|].
  split; [intros s; apply dict_fromkeys_elem|].
  split; [intros d; apply dict_fromkeys_elem|].
  split; [apply dict_fromkeys_order|].
  split; [apply dict_fromkeys_order|].
  rewrite collected_spec. split; reflexivity.
Qed.

(** The same happens in a transcript without leading or trailing white
    space: the clause before the full stop is one space, because the text
    after the line break cannot be part of a clause. *)
Example blank_clause_in_stripped_transcript :
  map task (tasks (local_extract ("Priya will  .x" +:+ nl +:+ " y"))) = [""].
Proof. vm_compute. reflexivity. Qed.

(** Two sentences with the same text and the same deadline phrase collapse
    to one entry each, the first-seen text first. *)
Example repeated_sentences_collapse :
  let r := local_extract
    "We must ship by Monday. Bob will test by Friday. We must ship by Monday." in
  action_points r = ["We must ship by Monday."; "Bob will test by Friday."]
  /\ deadlines r = ["by Monday"; "by Friday"]
  /\ length (tasks r) = 3%nat.
Proof. vm_compute. repeat split; reflexivity. Qed.


(** ** Tier 1: defaults of the parsed object *)

Section DefaultFacts.

Implicit Types (d : list (string * pyval)) (k : string) (v : pyval).

Lemma lookup_app_one d k k' v :
  Py.lookup k (d ++ [(k', v)])
  = match Py.lookup k d with
    | Some x => Some x
    | None => if String.eqb k' k then Some v else None
    end.
Proof.
  induction d as [|[k0 v0] d IH]; simpl; [reflexivity|].
  destruct (String.eqb k0 k); [reflexivity | exact IH].
Qed.

(** After [d.setdefault(k', v)], key [k'] is bound: to what it was bound
    to, or to [v]; every other key is as before. *)
Lemma lookup_setdefault d k k' v :
  Py.lookup k (Py.setdefault d k' v)
  = match Py.lookup k d with
    | Some x => Some x
    | None => if String.eqb k' k then Some v else None
    end.
Proof.
  unfold Py.setdefault. destruct (Py.lookup k' d) as [x|] eqn:E.
  - destruct (Py.lookup k d) eqn:Ek; [reflexivity|].
    destruct (String.eqb k' k) eqn:Eq; [|reflexivity].
    apply String.eqb_eq in Eq. subst. congruence.
  - apply lookup_app_one.
Qed.

Lemma sanity_defaults_spec d :
  exists d', sanity_defaults (PDict d) = Returns d'
    /\ (forall k, In k FIVE_KEYS ->
          Py.lookup k d'
          = Some (match Py.lookup k d with Some v => v | None => key_default k end))
    /\ (forall k v, Py.lookup k d = Some v -> Py.lookup k d' = Some v).
Proof.
  eexists. split; [reflexivity|]. split.
  - intros k Hk. rewrite !lookup_setdefault.
    destruct (Py.lookup k d); [reflexivity|].
    simpl in Hk. unfold key_default.
    destruct Hk as [<-|[<-|[<-|[<-|[<-|[]]]]]]; reflexivity.
  - intros k v Hk. rewrite !lookup_setdefault. now rewrite Hk.
Qed.

End DefaultFacts.

(** C6: when the text between the first opening brace and the last closing
    brace of the model's answer parses as a JSON object, tier 1 returns a
    dict in which all five keys are bound: to the value the object gave
    them, or to the default ("No summary available." for [summary], the
    empty list for the other four); nothing the object supplied is
    changed. *)
Theorem tier1_defaults_all_five_keys (env : Env)
    (model : prompt -> generation_config -> ext string)
    (text content : string) (obj : list (string * pyval)) (w : world) :
  GEMINI_MODEL env = Some model ->
  model (ExtractPrompt text) (GenConfig 0.1%float GEMINI_MAX_TOKENS) = ExtOk content ->
  PyStr.find "{" content <> (-1)%Z ->
  PyStr.rfind "}" content <> (-1)%Z ->
  json_loads env
    (PyStr.slice content (PyStr.find "{" content) (PyStr.rfind "}" content + 1))
  = ExtOk (PDict obj) ->
  exists d w',
    gemini_extract_structured env text w = (Returns d, w')
    /\ (forall k, In k FIVE_KEYS ->
          Py.lookup k d
          = Some (match Py.lookup k obj with Some v => v | None => key_default k end))
    /\ (forall k v, Py.lookup k obj = Some v -> Py.lookup k d = Some v).
Proof.
  intros Hmodel Hgen Hstart Hend Hjson.
  destruct (sanity_defaults_spec obj) as (d & Hd & Hkeys & Hkept).
  exists d. eexists. split; [|split; assumption].
  unfold gemini_extract_structured. rewrite Hmodel.
  unfold try_except, bind, generate_content, bind, emit, of_ext. simpl.
  rewrite Hgen. simpl. unfold lift, parse_model_json.
  apply Z.eqb_neq in Hstart, Hend. rewrite Hstart, Hend. simpl.
  rewrite Hjson, Hd. reflexivity.
Qed.

(** The demo model wraps an empty object in prose: every key is defaulted. *)
Lemma tier1_defaults_witness :
  exists d w',
    gemini_extract_structured demo_env "Priya will send the report." empty_world
    = (Returns d, w')
    /\ (forall k, In k FIVE_KEYS ->
          Py.lookup k d
          = Some (match Py.lookup k [] with Some v => v | None => key_default k end))
    /\ (forall k v, Py.lookup k [] = Some v -> Py.lookup k d = Some v).
Proof.
  apply (tier1_defaults_all_five_keys demo_env demo_model
           "Priya will send the report." "Here is the JSON: {} Done." []
           empty_world).
  - reflexivity.
  - reflexivity.
  - vm_compute. discriminate.
  - vm_compute. discriminate.
  - vm_compute. reflexivity.
Defined.

(** ** The formatter and the failure sentinels *)

Lemma append_assoc_str (a b c : string) : (a +:+ b) +:+ c = a +:+ (b +:+ c).
Proof.
  induction a as [|x a IH]; [reflexivity|].
  change (String x ((a +:+ b) +:+ c) = String x (a +:+ b +:+ c)).
  now rewrite IH.
Qed.


(** The sentinels of the model-unavailable path are not. *)
Lemma unavailable_sentinels_not_recognised :
  email_failed EMAIL_UNAVAILABLE = false
  /\ whatsapp_failed WHATSAPP_UNAVAILABLE = false.
Proof. split; reflexivity. Qed.

(** The formatter looks for the two prefixes of the exception path only.
    The strings the generators hold for a missing model handle would be
    rendered as if they were the generated texts; the module cannot be
    imported without a handle, so no request reaches that branch. *)
Lemma unavailable_sentinels_rendered_as_text :
  fst (gemini_generate_followup_email offline_env (PStr "Logo agreed.") (PList [])
         empty_world)
  = Returns "Gemini not available for email generation."
  /\ fst (gemini_generate_whatsapp offline_env (PStr "Logo agreed.") empty_world)
     = Returns "Gemini not available for WhatsApp summary."
  /\ format_markdown_block offline_env []
       "Gemini not available for email generation."
       "Gemini not available for WhatsApp summary."
     = Returns (unlines [
         "- **Summary**";
         "  - No summary available.";
         "";
         "- **Action points**";
         "  - None detected.";
         "";
         "- **Tasks assigned to specific people**";
         "  - No explicit tasks found.";
         "";
         "- **Deadlines**";
         "  - None mentioned.";
         "";
         "- **Follow-up emails**";
         "  - Draft ready below:";
         "";
         "```text";
         "Gemini not available for email generation.";
         "```";
         "";
         "⿤ **Sends it to**";
         "- **WhatsApp** — copy & paste this recap:";
         "";
         "```text";
         "Gemini not available for WhatsApp summary.";
         "```";
         "";
         "- **Email** — use the follow-up email draft above to send to participants."
       ]).
Proof. repeat split; vm_compute; reflexivity. Qed.

(** The same rendering with a sentinel of the exception path: the section
    body is replaced by the explanatory line. *)
Example exception_sentinels_suppressed (env : Env) :
  format_markdown_block env []
    "Email generation failed: 503 service unavailable"
    "WhatsApp summary failed: 503 service unavailable"
  = Returns (unlines [
      "- **Summary**";
      "  - No summary available.";
      "";
      "- **Action points**";
      "  - None detected.";
      "";
      "- **Tasks assigned to specific people**";
      "  - No explicit tasks found.";
      "";
      "- **Deadlines**";
      "  - None mentioned.";
      "";
      "- **Follow-up emails**";
      "  - Could not generate email.";
      "";
      "⿤ **Sends it to**";
      "- **WhatsApp** — copy & paste this recap:";
      "";
      "_No WhatsApp summary generated._";
      "";
      "- **Email** — use the follow-up email draft above to send to participants."
    ]).
Proof. vm_compute. reflexivity. Qed.

(** ** The request: sequencing, traces and files *)

Section MonadFacts.

Context {A B : Type}.

Lemma bind_returns_inv (m : M A) (k : A -> M B) w b w' :
  bind m k w = (Returns b, w') ->
  exists a w1, m w = (Returns a, w1) /\ k a w1 = (Returns b, w').
Proof.
  unfold bind. destruct (m w) as [[a|e] w1]; [eauto | discriminate].
Qed.

Lemma world_eta (w : world) : World (fs w) (trace w) (wav_path w) = w.
Proof. now destruct w. Qed.

End MonadFacts.

(** Computations that only talk to the collaborators keep any relation on
    worlds that is a preorder and is kept by the calls they log.  With
    [quiet] set, translation calls are not among the calls allowed. *)
Section Frame.

Variable R : world -> world -> Prop.
Variable quiet : bool.
Hypothesis R_refl : forall w, R w w.
Hypothesis R_trans : forall a b c, R a b -> R b c -> R a c.
Hypothesis R_emit : forall e w,
  (quiet = true -> is_translate e = false) ->
  R w (World (fs w) (trace w ++ [e]) (wav_path w)).

Lemma keeps_ret {A} (a : A) : keeps R (ret a).
Proof. intros w. apply R_refl. Qed.

Lemma keeps_raise {A} (e : exn) : keeps R (@raise A e).
Proof. intros w. apply R_refl. Qed.

Lemma keeps_lift {A} (o : outcome A) : keeps R (lift o).
Proof. intros w. apply R_refl. Qed.

Lemma keeps_of_ext {A} (x : ext A) : keeps R (of_ext x).
Proof. destruct x; [apply keeps_ret | apply keeps_raise]. Qed.

Lemma keeps_bind {A B} (m : M A) (k : A -> M B) :
  keeps R m -> (forall a, keeps R (k a)) -> keeps R (bind m k).
Proof.
  intros Hm Hk w. unfold bind. specialize (Hm w).
  destruct (m w) as [[a|e] w1]; simpl in *; [|exact Hm].
  eapply R_trans; [exact Hm | apply Hk].
Qed.

Lemma keeps_try_except {A} (body : M A) (handler : exn -> M A) :
  keeps R body -> (forall e, keeps R (handler e)) -> keeps R (try_except body handler).
Proof.
  intros Hm Hk w. unfold try_except. specialize (Hm w).
  destruct (body w) as [[a|e] w1]; simpl in *; [exact Hm|].
  eapply R_trans; [exact Hm | apply Hk].
Qed.

Lemma keeps_emit (e : event) :
  (quiet = true -> is_translate e = false) -> keeps R (emit e).
Proof. intros He w. apply R_emit, He. Qed.

Lemma keeps_generate_content model p cfg :
  (quiet = true -> is_translate (EvGenerate p cfg) = false) ->
  keeps R (generate_content model p cfg).
Proof.
  intros He. unfold generate_content.
  apply keeps_bind; [apply keeps_emit, He | intros _; apply keeps_of_ext].
Qed.

Lemma keeps_transcribe_audio env wav : keeps R (transcribe_audio env wav).
Proof.
  unfold transcribe_audio. apply keeps_bind; [now apply keeps_emit|].
  intros _ w. destruct (fs w !! wav) as [content|]; simpl; [|apply R_refl].
  destruct (whisper_transcribe env content); simpl; [|apply R_refl].
  destruct (collect_segments _ _ _). apply R_refl.
Qed.

Lemma keeps_gemini_extract_structured env text :
  keeps R (gemini_extract_structured env text).
Proof.
  unfold gemini_extract_structured.
  destruct (GEMINI_MODEL env) as [model|]; [|apply keeps_raise].
  apply keeps_try_except; [|intros e; apply keeps_raise].
  apply keeps_bind; [now apply keeps_generate_content|].
  intros content. apply keeps_lift.
Qed.

Lemma keeps_extract_with_fallback env transcript :
  keeps R (extract_with_fallback env transcript).
Proof.
  unfold extract_with_fallback.
  apply keeps_try_except; [|intros e; apply keeps_ret].
  apply keeps_bind; [apply keeps_gemini_extract_structured|].
  intros d. apply keeps_ret.
Qed.

Lemma keeps_followup_email env summary tasks :
  keeps R (gemini_generate_followup_email env summary tasks).
Proof.
  unfold gemini_generate_followup_email.
  destruct (GEMINI_MODEL env) as [model|]; [|apply keeps_ret].
  apply keeps_try_except; [|intros e; apply keeps_ret].
  apply keeps_bind; [now apply keeps_generate_content|].
  intros text. apply keeps_ret.
Qed.

Lemma keeps_whatsapp env summary : keeps R (gemini_generate_whatsapp env summary).
Proof.
  unfold gemini_generate_whatsapp.
  destruct (GEMINI_MODEL env) as [model|]; [|apply keeps_ret].
  apply keeps_try_except; [|intros e; apply keeps_ret].
  apply keeps_bind; [now apply keeps_generate_content|].
  intros text. apply keeps_ret.
Qed.

Lemma keeps_translate env summary target_lang :
  quiet <> true -> keeps R (gemini_translate_summary env summary target_lang).
Proof.
  intros Hq. unfold gemini_translate_summary.
  destruct (GEMINI_MODEL env) as [model|]; [|apply keeps_ret].
  destruct (negb _); [apply keeps_ret|].
  apply keeps_try_except; [|intros e; apply keeps_ret].
  apply keeps_bind; [apply keeps_generate_content; intros Q; contradiction|].
  intros text. apply keeps_ret.
Qed.

(** Everything after the conversion, provided a quiet run does not ask for
    a translation. *)
Lemma keeps_process_wav env wav target_lang :
  (quiet = true -> wants_translation target_lang = false) ->
  keeps R (process_wav env wav target_lang).
Proof.
  intros Hq. unfold process_wav.
  apply keeps_bind; [apply keeps_transcribe_audio|]. intros tr. cbv zeta.
  destruct (negb _); [apply keeps_raise|].
  apply keeps_bind; [apply keeps_extract_with_fallback|]. intros ne.
  apply keeps_bind; [apply keeps_followup_email|]. intros email.
  apply keeps_bind; [apply keeps_whatsapp|]. intros wa.
  apply keeps_bind.
  { destruct target_lang as [tl|]; [|apply keeps_ret].
    destruct (wants_translation (Some tl)) eqn:E; [|apply keeps_ret].
    apply keeps_translate. intros Q. specialize (Hq Q). congruence. }
  intros translated.
  apply keeps_bind; [apply keeps_lift|]. intros md. apply keeps_ret.
Qed.

End Frame.

Section Relations.

Lemma same_files_refl w : same_files w w.
Proof. split; reflexivity. Qed.

Lemma same_files_trans a b c : same_files a b -> same_files b c -> same_files a c.
Proof. intros [H1 H2] [H3 H4]. split; congruence. Qed.

Lemma same_files_emit (e : event) w :
  same_files w (World (fs w) (trace w ++ [e]) (wav_path w)).
Proof. split; reflexivity. Qed.

Lemma trace_grows_refl q w : trace_grows q w w.
Proof. exists []. rewrite app_nil_r. split; [reflexivity | intros _; constructor]. Qed.

Lemma trace_grows_trans q a b c :
  trace_grows q a b -> trace_grows q b c -> trace_grows q a c.
Proof.
  intros (e1 & H1 & Q1) (e2 & H2 & Q2). exists (e1 ++ e2). split.
  - now rewrite H2, H1, app_assoc.
  - intros Q. apply Forall_app. split; [apply Q1, Q | apply Q2, Q].
Qed.

Lemma trace_grows_emit q (e : event) w :
  (q = true -> is_translate e = false) ->
  trace_grows q w (World (fs w) (trace w ++ [e]) (wav_path w)).
Proof.
  intros He. exists [e]. split; [reflexivity|].
  intros Q. constructor; [apply He, Q | constructor].
Qed.

(** A step that leaves the trace alone. *)
Lemma trace_grows_same q w w' : trace w' = trace w -> trace_grows q w w'.
Proof.
  intros H. exists []. rewrite app_nil_r. split; [assumption | intros _; constructor].
Qed.

End Relations.

(** The files are untouched from the transcription on. *)
Lemma process_wav_same_files env wav target_lang :
  keeps same_files (process_wav env wav target_lang).
Proof.
  apply (keeps_process_wav same_files false);
    [apply same_files_refl | apply same_files_trans
    | intros e w _; apply same_files_emit | discriminate].
Qed.

Lemma process_wav_trace env wav target_lang q :
  (q = true -> wants_translation target_lang = false) ->
  keeps (trace_grows q) (process_wav env wav target_lang).
Proof.
  apply (keeps_process_wav (trace_grows q) q);
    [apply trace_grows_refl | apply trace_grows_trans
    | intros e w; apply trace_grows_emit].
Qed.

(** The outcome of tier 1 is the same in every world. *)
Lemma tier1_any_world env text w :
  fst (gemini_extract_structured env text w) = tier1 env text.
Proof.
  unfold tier1, gemini_extract_structured.
  destruct (GEMINI_MODEL env) as [model|]; [|reflexivity].
  unfold try_except, bind, generate_content, bind, emit, of_ext. simpl.
  destruct (model _ _) as [content|msg]; simpl; [|reflexivity].
  unfold lift. destruct (parse_model_json env content); reflexivity.
Qed.

(** *** Saving the upload *)

Section SaveFacts.

Implicit Types (p : string) (rs : list (ext bytes)) (w : world) (c : bytes).

(** When no read raises, the loop appends every chunk up to the first empty
    one, whatever the total size. *)
Lemma save_chunks_spec p rs w c :
  fs w !! p = Some c ->
  upload_readable rs = true ->
  save_chunks p rs w
  = (Returns tt, World (<[p := c ++ uploaded_bytes rs]> (fs w)) (trace w) (wav_path w)).
Proof.
  revert w c. induction rs as [|[chunk|msg] rs IH]; intros w c Hc Hr; simpl in *.
  - unfold ret. rewrite app_nil_r, insert_id by exact Hc. now rewrite world_eta.
  - destruct chunk as [|b chunk].
    + unfold ret. rewrite app_nil_r, insert_id by exact Hc. now rewrite world_eta.
    + unfold bind, file_write. rewrite Hc. simpl.
      erewrite IH; [|simpl; apply lookup_insert_eq | exact Hr].
      simpl. rewrite insert_insert_eq, <- app_assoc. reflexivity.
  - discriminate.
Qed.

Lemma save_chunks_trace p rs w : trace (snd (save_chunks p rs w)) = trace w.
Proof.
  revert w. induction rs as [|[chunk|msg] rs IH]; intros w; simpl; try reflexivity.
  destruct chunk as [|b chunk]; [reflexivity|].
  unfold bind, file_write. simpl. now rewrite IH.
Qed.

(** Once the upload is saved the request is the [try]/[finally] block run
    on a world that holds the whole upload. *)
Lemma summarize_meeting_saved env audio target_lang w :
  openable (upload_name env audio) = true ->
  upload_readable (reads audio) = true ->
  summarize_meeting env audio target_lang w
  = try_finally (process env (upload_path env audio) target_lang)
      (cleanup (upload_path env audio))
      (World (<[upload_path env audio := uploaded_bytes (reads audio)]> (fs w))
             (trace w) None).
Proof.
  intros Ho Hr. unfold summarize_meeting.
  unfold bind at 1. unfold open_wb at 1. rewrite Ho. simpl.
  unfold bind at 1.
  rewrite (save_chunks_spec _ _ _ []); [|simpl; apply lookup_insert_eq | exact Hr].
  simpl. rewrite insert_insert_eq.
  unfold bind, path_exists. simpl. rewrite lookup_insert_eq.
  rewrite bool_decide_eq_true_2 by eauto. reflexivity.
Qed.


(** The client's file name is used as it is: one that names a sub-path
    cannot be opened, and the request ends before anything is called. *)
Example sub_path_file_name_fails_at_open :
  upload_path demo_env (MkUpload (Some "minutes/standup.mp3") [ExtOk [b0]])
  = "/tmp/up_minutes/standup.mp3"
  /\ summarize_meeting demo_env (MkUpload (Some "minutes/standup.mp3") [ExtOk [b0]])
       None empty_world
     = (Raises (Exception
          "[Errno 2] No such file or directory: '/tmp/up_minutes/standup.mp3'"),
        empty_world).
Proof. split; vm_compute; reflexivity. Qed.

Lemma repeat_chunks_readable (b : Byte.byte) (chunk : bytes) (n : nat) :
  upload_readable (repeat (ExtOk (b :: chunk)) n) = true.
Proof. induction n as [|n IH]; simpl; [reflexivity | exact IH]. Qed.

Lemma repeat_chunks_bytes (b : Byte.byte) (chunk : bytes) (n : nat) :
  uploaded_bytes (repeat (ExtOk (b :: chunk)) n) = concat (repeat (b :: chunk) n).
Proof.
  induction n as [|n IH]; [reflexivity|].
  change (b :: chunk ++ uploaded_bytes (repeat (ExtOk (b :: chunk)) n)
          = b :: chunk ++ concat (repeat (b :: chunk) n)).
  now rewrite IH.
Qed.

Lemma concat_repeat_length (c : bytes) (n : nat) :
  length (concat (repeat c n)) = (n * length c)%nat.
Proof.
  induction n as [|n IH]; [reflexivity|].
  change (length (c ++ concat (repeat c n)) = (length c + n * length c)%nat).
  now rewrite length_app, IH.
Qed.

End SaveFacts.

(** *** Deleting the temporary files *)

Section CleanupFacts.

Implicit Types (a b : string) (m : gmap string bytes).




(** What the [try] block does to the files: nothing when the conversion
    fails, one new file bound to [wav_path] when it returns. *)
Lemma process_files env p target_lang w r w' :
  process env p target_lang w = (r, w') ->
  (fs w' = fs w /\ wav_path w' = wav_path w)
  \/ (exists wav, fs w' = <[with_suffix env p ".wav" := wav]> (fs w)
                  /\ wav_path w' = Some (with_suffix env p ".wav")).
Proof.
  unfold process, convert_to_wav. unfold bind at 1 2. unfold emit. simpl.
  destruct (fs w !! p) as [content|]; simpl.
  - destruct (decode_audio env content) as [wav|msg]; simpl.
    + unfold bind at 1. unfold bind_wav_path. simpl. intros H.
      pose proof (process_wav_same_files env (with_suffix env p ".wav") target_lang
        (World (<[with_suffix env p ".wav" := wav]> (fs w))
               (trace w ++ [EvDecode p]) (Some (with_suffix env p ".wav")))) as K.
      rewrite H in K. destruct K as [K1 K2]. simpl in *. right. eauto.
    + intros [= <- <-]. left. split; reflexivity.
  - intros [= <- <-]. left. split; reflexivity.
Qed.


End CleanupFacts.

(** *** Traces *)

Section TraceFacts.

Variable q : bool.

Lemma keeps_try_finally {A} (body : M A) (final : world -> world) :
  keeps (trace_grows q) body ->
  (forall w, trace (final w) = trace w) ->
  keeps (trace_grows q) (try_finally body final).
Proof.
  intros Hb Hf w. unfold try_finally. specialize (Hb w).
  destruct (body w) as [r w1]. simpl in *.
  eapply trace_grows_trans; [exact Hb | apply trace_grows_same, Hf].
Qed.

Lemma convert_to_wav_trace env p : keeps (trace_grows q) (convert_to_wav env p).
Proof.
  unfold convert_to_wav. apply keeps_bind; [apply trace_grows_trans | |].
  - intros w. apply trace_grows_emit. reflexivity.
  - intros _ w. apply trace_grows_same.
    destruct (fs w !! p) as [content|]; [|reflexivity].
    destruct (decode_audio env content); reflexivity.
Qed.

Lemma process_trace env p target_lang :
  (q = true -> wants_translation target_lang = false) ->
  keeps (trace_grows q) (process env p target_lang).
Proof.
  intros Hq. unfold process.
  apply keeps_bind; [apply trace_grows_trans | apply convert_to_wav_trace |].
  intros wav. apply keeps_bind; [apply trace_grows_trans | |].
  - intros w. now apply trace_grows_same.
  - intros _. now apply process_wav_trace.
Qed.

(** A request only adds to the trace, and adds no translation call unless
    the request asks for a translation. *)
Lemma summarize_meeting_trace env audio target_lang w :
  (q = true -> wants_translation target_lang = false) ->
  trace_grows q w (snd (summarize_meeting env audio target_lang w)).
Proof.
  intros Hq. unfold summarize_meeting.
  eapply trace_grows_trans;
    [apply (trace_grows_same q w (World (fs w) (trace w) None)); reflexivity|].
  generalize (World (fs w) (trace w) None). clear w.
  change (keeps (trace_grows q)
    (bind (open_wb env (upload_name env audio) (upload_path env audio)) (fun _ =>
     bind (save_chunks (upload_path env audio) (reads audio)) (fun _ =>
     bind (path_exists (upload_path env audio)) (fun saved =>
       if negb saved
       then raise (HTTPException 400 "Failed to save uploaded file.")
       else try_finally (process env (upload_path env audio) target_lang)
              (cleanup (upload_path env audio))))))).
  apply keeps_bind; [apply trace_grows_trans | |].
  { intros w. apply trace_grows_same. unfold open_wb.
    now destruct (openable _). }
  intros _. apply keeps_bind; [apply trace_grows_trans | |].
  { intros w. apply trace_grows_same, save_chunks_trace. }
  intros _. apply keeps_bind; [apply trace_grows_trans | |].
  { intros w. now apply trace_grows_same. }
  intros saved. destruct (negb saved).
  - intros w. apply trace_grows_refl.
  - apply keeps_try_finally; [now apply process_trace | reflexivity].
Qed.

End TraceFacts.

(** The first thing the [try] block does is to hand the saved upload to the
    decoder. *)
Lemma process_starts_with_decode env p target_lang w :
  exists evs, trace (snd (process env p target_lang w)) = trace w ++ EvDecode p :: evs.
Proof.
  unfold process, convert_to_wav. unfold bind at 1 2. unfold emit. simpl.
  destruct (fs w !! p) as [content|]; simpl; [|exists []; reflexivity].
  destruct (decode_audio env content) as [wav|msg]; simpl; [|exists []; reflexivity].
  unfold bind at 1. unfold bind_wav_path. simpl.
  destruct (process_wav_trace env (with_suffix env p ".wav") target_lang false
              ltac:(discriminate)
              (World (<[with_suffix env p ".wav" := wav]> (fs w))
                     (trace w ++ [EvDecode p]) (Some (with_suffix env p ".wav"))))
    as (evs & Hevs & _).
  exists evs. rewrite Hevs. simpl. now rewrite <- app_assoc.
Qed.

Section TranslationFacts.

Lemma wants_translation_true target_lang :
  wants_translation target_lang = true <->
  exists t, target_lang = Some t /\ t <> EmptyString
            /\ PyStr.lower t ∉ ["none"; "original"; "auto"].
Proof.
  unfold wants_translation. destruct target_lang as [t|].
  - rewrite andb_true_iff, negb_true_iff, nonempty_true_iff, bool_decide_eq_false.
    split; [intros [H1 H2]; eauto|]. intros (t' & [= <-] & H1 & H2). auto.
  - split; [discriminate|]. intros (t & H & _). discriminate.
Qed.

Lemma wants_translation_false target_lang :
  no_translation_requested target_lang -> wants_translation target_lang = false.
Proof.
  intros H. destruct (wants_translation target_lang) eqn:E; [|reflexivity].
  apply wants_translation_true in E. destruct E as (t & -> & Hne & Hnot).
  destruct H as [H|[H|(t' & H & Hin)]]; try discriminate.
  - injection H as ->. congruence.
  - injection H as ->. contradiction.
Qed.

End TranslationFacts.

(** *** What a successful request returns *)

Section ResponseFacts.

Lemma extract_with_fallback_inv env transcript w ne w' :
  extract_with_fallback env transcript w = (Returns ne, w') ->
  match tier1 env transcript with
  | Returns d => ne = (EmptyString, d)
  | Raises e =>
      ne = ("Note: Gemini failed, using local extraction instead. ("
              +:+ Py.str_exn e +:+ ")",
            record_to_py (local_extract transcript))
  end.
Proof.
  unfold extract_with_fallback, try_except, bind.
  rewrite <- (tier1_any_world env transcript w).
  destruct (gemini_extract_structured env transcript w) as [[d|e] w1]; simpl;
    unfold ret; intros [= <- _]; reflexivity.
Qed.

(** The response dict of a run of the [try] block that returns. *)
Lemma process_wav_returns env wav target_lang w resp w' :
  process_wav env wav target_lang w = (Returns resp, w') ->
  exists transcript diarization note extracted email wa translated md,
    resp = PDict [
      ("transcript", PStr transcript);
      ("diarization", PList diarization);
      ("summary", Py.get extracted "summary" (PStr ""));
      ("action_points", Py.get extracted "action_points" (PList []));
      ("tasks", Py.get extracted "tasks" (PList []));
      ("deadlines", Py.get extracted "deadlines" (PList []));
      ("speakers", Py.get extracted "speakers" (PList []));
      ("structured_summary", PStr md);
      ("followup_email", PStr email);
      ("whatsapp", PStr wa);
      ("translated_summary", translated);
      ("target_lang", opt_str target_lang);
      ("note", PStr note) ]
    /\ PyStr.nonempty (PyStr.strip transcript) = true
    /\ match tier1 env transcript with
       | Returns d => note = EmptyString /\ extracted = d
       | Raises e =>
           note = "Note: Gemini failed, using local extraction instead. ("
                    +:+ Py.str_exn e +:+ ")"
           /\ extracted = record_to_py (local_extract transcript)
       end
    /\ (wants_translation target_lang = false -> translated = PNone).
Proof.
  unfold process_wav. intros H.
  apply bind_returns_inv in H as ([transcript diarization] & w1 & _ & H).
  cbv beta zeta in H. cbn [fst snd] in H.
  destruct (PyStr.nonempty (PyStr.strip transcript)) eqn:Hne; simpl negb in H;
    cbv iota in H; [|unfold raise in H; discriminate].
  apply bind_returns_inv in H as ([note extracted] & w2 & Hx & H).
  cbn [fst snd] in H.
  apply bind_returns_inv in H as (email & w3 & _ & H).
  apply bind_returns_inv in H as (wa & w4 & _ & H).
  apply bind_returns_inv in H as (translated & w5 & Htr & H).
  apply bind_returns_inv in H as (md & w6 & _ & H).
  unfold ret in H. injection H as <- _.
  exists transcript, diarization, note, extracted, email, wa, translated, md.
  split; [reflexivity|]. split; [exact Hne|]. split.
  - apply extract_with_fallback_inv in Hx.
    destruct (tier1 env transcript); injection Hx as -> ->; split; reflexivity.
  - intros Hw. destruct target_lang as [tl|]; [rewrite Hw in Htr|];
      unfold ret in Htr; now injection Htr.
Qed.

(** A request that returns ran the [try] block to its end. *)
Lemma summarize_meeting_returns env audio target_lang w resp w' :
  summarize_meeting env audio target_lang w = (Returns resp, w') ->
  exists wav w1 w2, process_wav env wav target_lang w1 = (Returns resp, w2).
Proof.
  unfold summarize_meeting. intros H.
  apply bind_returns_inv in H as (? & wa & _ & H).
  apply bind_returns_inv in H as (? & wb & _ & H).
  apply bind_returns_inv in H as (saved & wc & _ & H).
  destruct (negb saved); [discriminate|].
  unfold try_finally in H.
  destruct (process env (upload_path env audio) target_lang wc) as [r wd] eqn:Hp.
  injection H as -> _. unfold process in Hp.
  apply bind_returns_inv in Hp as (wav & we & _ & Hp).
  apply bind_returns_inv in Hp as (? & wf & _ & Hp).
  eauto.
Qed.

(** The translation helper never raises; a failed call or an answer that
    trims to nothing gives the summary back. *)
Lemma gemini_translate_summary_spec env summary target_lang w :
  exists v w1,
    gemini_translate_summary env summary target_lang w = (Returns v, w1)
    /\ (GEMINI_MODEL env = None \/ target_lang = EmptyString -> v = summary)
    /\ (forall model,
          GEMINI_MODEL env = Some model -> target_lang <> EmptyString ->
          match model (TranslatePrompt summary target_lang) (GenConfig 0%float 400) with
          | ExtRaise _ => v = summary
          | ExtOk text =>
              v = if PyStr.nonempty (PyStr.strip text)
                  then PStr (PyStr.strip text) else summary
          end).
Proof.
  unfold gemini_translate_summary.
  destruct (GEMINI_MODEL env) as [model|] eqn:Em.
  - destruct target_lang as [|c t]; simpl negb; cbv iota.
    + do 2 eexists. split; [reflexivity|]. split; [reflexivity|].
      intros ? _ Hne. congruence.
    + unfold try_except, bind, generate_content, bind, emit, of_ext. simpl.
      destruct (model _ _) as [text|msg] eqn:Eg; simpl;
        do 2 eexists; (split; [reflexivity|]); split.
      * intros [H|H]; discriminate.
      * intros m' [= <-] _. now rewrite Eg.
      * intros [H|H]; discriminate.
      * intros m' [= <-] _. now rewrite Eg.
  - do 2 eexists. split; [reflexivity|]. split; [reflexivity|].
    intros ? H. discriminate.
Qed.

End ResponseFacts.

(** ** The endpoint *)

(** C3, as the code has it: [MAX_UPLOAD_BYTES] is never consulted.  An
    upload of 2049 chunks of one MiB is larger than the limit; the save
    loop writes all of it, no size rejection is raised, and the [try] block
    runs on the saved file, starting with the call to the decoder. *)
Theorem upload_limit_is_not_enforced (env : Env) (target_lang : option string)
    (w : world) :
  (MAX_UPLOAD_BYTES < Z.of_nat (length (uploaded_bytes (reads huge_audio))))%Z
  /\ summarize_meeting env huge_audio target_lang w
     = try_finally (process env (upload_path env huge_audio) target_lang)
         (cleanup (upload_path env huge_audio))
         (World (<[upload_path env huge_audio := uploaded_bytes (reads huge_audio)]>
                   (fs w))
                (trace w) None)
  /\ exists evs,
       trace (snd (summarize_meeting env huge_audio target_lang w))
       = trace w ++ EvDecode (upload_path env huge_audio) :: evs.
Proof.
  assert (Hr : upload_readable (reads huge_audio) = true)
    by apply repeat_chunks_readable.
  split; [|split].
  - change (reads huge_audio) with (repeat (ExtOk mib_chunk) 2049).
    unfold mib_chunk. rewrite repeat_chunks_bytes, concat_repeat_length.
    change (length (b0 :: repeat b0 (Z.to_nat (1024 * 1024 - 1))))
      with (S (length (repeat b0 (Z.to_nat (1024 * 1024 - 1))))).
    rewrite repeat_length. unfold MAX_UPLOAD_BYTES. lia.
  - now apply summarize_meeting_saved.
  - rewrite summarize_meeting_saved by exact Hr. unfold try_finally.
    destruct (process_starts_with_decode env (upload_path env huge_audio) target_lang
                (World (<[upload_path env huge_audio
                          := uploaded_bytes (reads huge_audio)]> (fs w))
                       (trace w) None)) as (evs & Hevs).
    destruct (process _ _ _ _) as [r w1]. simpl in *. eauto.
Qed.

(** C7: a translation call is issued only for a target language that is
    given, not empty and, in lower case, none of none / original / auto;
    when the target language is omitted or is one of those, no translation
    call is issued and [translated_summary] is null in the response; and
    the translation helper never raises: when the call fails, or its answer
    trims to nothing, it returns the summary it was given. *)
Theorem translation_only_on_request (env : Env) (audio : UploadFile)
    (target_lang : option string) (w : world) :
  exists r w' evs,
    summarize_meeting env audio target_lang w = (r, w')
    /\ trace w' = trace w ++ evs
    /\ (Exists (fun e => is_translate e = true) evs ->
        exists t, target_lang = Some t /\ t <> EmptyString
                  /\ PyStr.lower t ∉ ["none"; "original"; "auto"])
    /\ (no_translation_requested target_lang ->
        Forall (fun e => is_translate e = false) evs
        /\ forall items, r = Returns (PDict items) ->
             Py.lookup "translated_summary" items = Some PNone)
    /\ (forall summary t w0,
          exists v w1,
            gemini_translate_summary env summary t w0 = (Returns v, w1)
            /\ (GEMINI_MODEL env = None \/ t = EmptyString -> v = summary)
            /\ (forall model,
                  GEMINI_MODEL env = Some model -> t <> EmptyString ->
                  match model (TranslatePrompt summary t) (GenConfig 0%float 400) with
                  | ExtRaise _ => v = summary
                  | ExtOk text =>
                      v = if PyStr.nonempty (PyStr.strip text)
                          then PStr (PyStr.strip text) else summary
                  end)).
Proof.
  destruct (summarize_meeting env audio target_lang w) as [r w'] eqn:Hrun.
  destruct (summarize_meeting_trace (negb (wants_translation target_lang))
              env audio target_lang w) as (evs & Hevs & Hquiet).
  { now intros ->%negb_true_iff. }
  rewrite Hrun in Hevs. simpl in Hevs.
  exists r, w', evs. split; [reflexivity|]. split; [exact Hevs|].
  split; [|split].
  - intros Hex. apply wants_translation_true.
    destruct (wants_translation target_lang) eqn:E; [reflexivity|].
    specialize (Hquiet eq_refl). rewrite Forall_forall in Hquiet.
    apply Exists_exists in Hex. destruct Hex as (e & He & Ht).
    rewrite (Hquiet e) in Ht; [discriminate | exact He].
  - intros Hno. apply wants_translation_false in Hno. split.
    + apply Hquiet. now rewrite Hno.
    + intros items ->. apply summarize_meeting_returns in Hrun.
      destruct Hrun as (wav & w1 & w2 & Hp).
      apply process_wav_returns in Hp.
      destruct Hp as (tr & di & note & ex & em & wa & tl & md & Hresp & _ & _ & Htl).
      injection Hresp as ->. rewrite (Htl Hno). reflexivity.
  - intros summary t w0. apply gemini_translate_summary_spec.
Qed.

(** The upload is written before the [try] block is entered, so a stream
    that breaks while it is being saved ends the request outside the reach
    of the [finally] clause, and what was written so far stays. *)
Lemma broken_upload_leaves_partial_file :
  fst (summarize_meeting demo_env broken_audio None empty_world)
  = Raises (Exception "client disconnected")
  /\ fs (snd (summarize_meeting demo_env broken_audio None empty_world))
       !! upload_path demo_env broken_audio
     = Some [b0; b0].
Proof. split; vm_compute; reflexivity. Qed.



(** C10: in the response of a request that succeeds, [note] is a string.
    It is empty when tier 1 returned, and then the response carries the
    fields of the model's object; it is the diagnostic that starts with
    "Note: Gemini failed" and quotes the failure when tier 1 raised, and
    then the response carries the record of the local extractor. *)
Theorem note_tells_which_tier (env : Env) (audio : UploadFile)
    (target_lang : option string) (w : world) (resp : pyval) (w' : world) :
  summarize_meeting env audio target_lang w = (Returns resp, w') ->
  exists items transcript note,
    resp = PDict items
    /\ Py.lookup "transcript" items = Some (PStr transcript)
    /\ Py.lookup "note" items = Some (PStr note)
    /\ match tier1 env transcript with
       | Returns d =>
           note = EmptyString
           /\ Py.lookup "summary" items = Some (Py.get d "summary" (PStr ""))
           /\ Py.lookup "tasks" items = Some (Py.get d "tasks" (PList []))
       | Raises e =>
           note = "Note: Gemini failed, using local extraction instead. ("
                    +:+ Py.str_exn e +:+ ")"
           /\ PyStr.startswith note "Note: Gemini failed" = true
           /\ PyStr.nonempty note = true
           /\ Py.lookup "summary" items
              = Some (PStr (summary (local_extract transcript)))
           /\ Py.lookup "tasks" items
              = Some (PList (map task_to_py (tasks (local_extract transcript))))
       end.
Proof.
  intros Hrun. apply summarize_meeting_returns in Hrun.
  destruct Hrun as (wav & w1 & w2 & Hp). apply process_wav_returns in Hp.
  destruct Hp as (tr & di & note & ex & em & wa & tl & md & -> & _ & Htier & _).
  eexists _, tr, note. split; [reflexivity|]. split; [reflexivity|].
  split; [reflexivity|].
  destruct (tier1 env tr) as [d|e]; destruct Htier as [-> ->].
  - repeat split; reflexivity.
  - repeat split; reflexivity.
Qed.

(** A run in which every model call fails: the fallback is used and the
    note says so. *)
Lemma note_tells_which_tier_witness :
  exists items transcript note,
    match fst (summarize_meeting fallback_env demo_audio None empty_world) with
    | Returns resp => resp
    | Raises _ => PNone
    end = PDict items
    /\ Py.lookup "transcript" items = Some (PStr transcript)
    /\ Py.lookup "note" items = Some (PStr note)
    /\ match tier1 fallback_env transcript with
       | Returns d =>
           note = EmptyString
           /\ Py.lookup "summary" items = Some (Py.get d "summary" (PStr ""))
           /\ Py.lookup "tasks" items = Some (Py.get d "tasks" (PList []))
       | Raises e =>
           note = "Note: Gemini failed, using local extraction instead. ("
                    +:+ Py.str_exn e +:+ ")"
           /\ PyStr.startswith note "Note: Gemini failed" = true
           /\ PyStr.nonempty note = true
           /\ Py.lookup "summary" items
              = Some (PStr (summary (local_extract transcript)))
           /\ Py.lookup "tasks" items
              = Some (PList (map task_to_py (tasks (local_extract transcript))))
       end.
Proof.
  apply (note_tells_which_tier fallback_env demo_audio None empty_world _
           (snd (summarize_meeting fallback_env demo_audio None empty_world))).
  vm_compute. reflexivity.
Defined.

(** ** Further properties *)

(** *** Trimming *)

Section TrimFacts.

Lemma append_nil_r_str (s : string) : s +:+ EmptyString = s.
Proof.
  induction s as [|c s IH]; [reflexivity|].
  change (String c (s +:+ EmptyString) = String c s). now rewrite IH.
Qed.

Lemma append_cons_str (c : ascii) (a b : string) :
  String c a +:+ b = String c (a +:+ b).
Proof. reflexivity. Qed.

Lemma lstrip_starts_clean (s : string) : starts_clean (PyStr.lstrip s) = true.
Proof.
  induction s as [|c s IH]; simpl; [reflexivity|].
  destruct (PyStr.is_space c) eqn:E; [exact IH|]. simpl. now rewrite E.
Qed.

Lemma rstrip_ends_clean (s : string) : ends_clean (PyStr.rstrip s) = true.
Proof.
  induction s as [|c s IH]; simpl; [reflexivity|].
  destruct (PyStr.rstrip s) as [|d r] eqn:E.
  - destruct (PyStr.is_space c) eqn:Ec; simpl; [reflexivity | now rewrite Ec].
  - exact IH.
Qed.

Lemma lstrip_keeps_ends_clean (s : string) :
  ends_clean s = true -> ends_clean (PyStr.lstrip s) = true.
Proof.
  induction s as [|c s IH]; [reflexivity|].
  intros H. cbn [PyStr.lstrip].
  destruct (PyStr.is_space c) eqn:E; [|exact H].
  destruct s as [|d s]; [reflexivity|]. apply IH, H.
Qed.

Lemma lstrip_clean (s : string) : starts_clean s = true -> PyStr.lstrip s = s.
Proof.
  destruct s as [|c s]; simpl; [reflexivity|].
  now intros ->%negb_true_iff.
Qed.

Lemma rstrip_clean (s : string) : ends_clean s = true -> PyStr.rstrip s = s.
Proof.
  induction s as [|c s IH]; simpl; [reflexivity|].
  destruct s as [|d s].
  - simpl. now intros ->%negb_true_iff.
  - intros H. rewrite (IH H). reflexivity.
Qed.

(** [s.strip()] has no white space at either end, and stripping a text
    that has none changes nothing. *)
Lemma strip_trimmed (s : string) : trimmed (PyStr.strip s) = true.
Proof.
  unfold trimmed, PyStr.strip. rewrite lstrip_starts_clean. simpl.
  apply lstrip_keeps_ends_clean, rstrip_ends_clean.
Qed.

Lemma strip_of_trimmed (s : string) : trimmed s = true -> PyStr.strip s = s.
Proof.
  unfold trimmed, PyStr.strip. intros [H1 H2]%andb_true_iff.
  now rewrite (rstrip_clean s H2), (lstrip_clean s H1).
Qed.

Lemma strip_idempotent (s : string) : PyStr.strip (PyStr.strip s) = PyStr.strip s.
Proof. apply strip_of_trimmed, strip_trimmed. Qed.

Lemma starts_clean_app (a b : string) :
  a <> EmptyString -> starts_clean (a +:+ b) = starts_clean a.
Proof. destruct a; [congruence | reflexivity]. Qed.

Lemma ends_clean_app (a b : string) :
  b <> EmptyString -> ends_clean (a +:+ b) = ends_clean b.
Proof.
  intros Hb. induction a as [|c a IH]; [reflexivity|].
  rewrite append_cons_str. simpl.
  destruct (a +:+ b) eqn:E; [|exact IH].
  destruct a; [change (b = EmptyString) in E; congruence|].
  rewrite append_cons_str in E. discriminate.
Qed.

Lemma join_nonempty (parts : list string) :
  parts <> [] -> Forall (fun p => PyStr.nonempty p = true) parts ->
  PyStr.nonempty (PyStr.join " " parts) = true.
Proof.
  destruct parts as [|p ps]; [congruence|]. intros _ H.
  apply Forall_cons_1 in H. destruct H as [Hp _].
  destruct ps; simpl; [exact Hp|]. destruct p; [discriminate | reflexivity].
Qed.

(** Joining trimmed, non-empty parts with single spaces gives a trimmed
    text. *)
Lemma join_trimmed (parts : list string) :
  Forall (fun p => PyStr.nonempty p = true /\ trimmed p = true) parts ->
  trimmed (PyStr.join " " parts) = true.
Proof.
  induction parts as [|p ps IH]; [reflexivity|].
  intros H. apply Forall_cons_1 in H. destruct H as [[Hne Htr] Hps].
  destruct ps as [|p' ps]; [exact Htr|].
  specialize (IH Hps).
  change (PyStr.join " " (p :: p' :: ps))
    with (p +:+ " " +:+ PyStr.join " " (p' :: ps)).
  assert (Hj : PyStr.join " " (p' :: ps) <> EmptyString).
  { apply nonempty_true_iff, join_nonempty; [discriminate|].
    eapply Forall_impl; [exact Hps|]. now intros ? [? _]. }
  set (J := PyStr.join " " (p' :: ps)) in *.
  apply andb_true_iff in Htr. destruct Htr as [Hs He].
  apply andb_true_iff in IH. destruct IH as [_ IHe].
  apply nonempty_true_iff in Hne.
  unfold trimmed. rewrite starts_clean_app, Hs by exact Hne. cbn [andb].
  rewrite ends_clean_app by (rewrite append_cons_str; discriminate).
  rewrite ends_clean_app by exact Hj. exact IHe.
Qed.

End TrimFacts.

(** *** Transcription *)

Lemma collect_segments_spec (segments : list Segment) (parts : list string)
    (diarization : list pyval) :
  collect_segments segments parts diarization
  = (parts ++ map (fun seg => PyStr.strip (seg_text seg)) (kept_segments segments),
     diarization ++ map segment_entry (kept_segments segments)).
Proof.
  revert parts diarization.
  induction segments as [|seg segments IH]; intros parts diarization; simpl.
  - now rewrite !app_nil_r.
  - destruct (PyStr.nonempty (PyStr.strip (seg_text seg))); [|apply IH].
    rewrite IH. simpl. now rewrite <- !app_assoc.
Qed.

Lemma transcribe_audio_run (env : Env) (wav : string)
    (w : world) (content : bytes) (segments : list Segment) :
  fs w !! wav = Some content ->
  whisper_transcribe env content = ExtOk segments ->
  let texts := map (fun seg => PyStr.strip (seg_text seg)) (kept_segments segments) in
  transcribe_audio env wav w
  = (Returns (PyStr.join " " texts, map segment_entry (kept_segments segments)),
     World (fs w) (trace w ++ [EvTranscribe wav]) (wav_path w))
  /\ Forall (fun t => PyStr.nonempty t = true /\ trimmed t = true) texts
  /\ trimmed (PyStr.join " " texts) = true
  /\ (PyStr.nonempty (PyStr.join " " texts) = false <-> kept_segments segments = []).
Proof.
  intros Hfile Hwhisper texts.
  assert (Htexts : Forall (fun t => PyStr.nonempty t = true /\ trimmed t = true) texts).
  { unfold texts, kept_segments. apply Forall_forall. intros t Ht.
    apply list_elem_of_In, in_map_iff in Ht. destruct Ht as (seg & <- & Hseg).
    apply filter_In in Hseg. split; [apply Hseg | apply strip_trimmed]. }
  assert (Hjoin : trimmed (PyStr.join " " texts) = true) by now apply join_trimmed.
  split; [|split; [exact Htexts | split; [exact Hjoin|]]].
  - unfold transcribe_audio, bind, emit. simpl. rewrite Hfile, Hwhisper.
    rewrite collect_segments_spec. simpl. fold texts.
    now rewrite (strip_of_trimmed _ Hjoin).
  - split.
    + intros Hempty. destruct (kept_segments segments) as [|seg segs] eqn:E;
        [reflexivity|].
      rewrite join_nonempty in Hempty; [discriminate | | ].
      * unfold texts. discriminate.
      * eapply Forall_impl; [exact Htexts|]. now intros ? [? _].
    + unfold texts. now intros ->.
Qed.

(** X1: on segments of ASCII text, [transcribe_audio] keeps, in order, the
    segments whose text is not blank and drops the others; every kept text
    is stripped, so it is non-empty and has no white space at either end;
    the transcript is these texts joined by single spaces (the final
    [strip] changes nothing), and it is empty exactly when no segment was
    kept. *)
Theorem transcribe_audio_keeps_spoken_segments (env : Env) (wav : string)
    (w : world) (content : bytes) (segments : list Segment) :
  fs w !! wav = Some content ->
  whisper_transcribe env content = ExtOk segments ->
  ascii_segments segments = true ->
  let texts := map (fun seg => PyStr.strip (seg_text seg)) (kept_segments segments) in
  transcribe_audio env wav w
  = (Returns (PyStr.join " " texts, map segment_entry (kept_segments segments)),
     World (fs w) (trace w ++ [EvTranscribe wav]) (wav_path w))
  /\ Forall (fun t => PyStr.nonempty t = true /\ trimmed t = true) texts
  /\ trimmed (PyStr.join " " texts) = true
  /\ (PyStr.nonempty (PyStr.join " " texts) = false <-> kept_segments segments = []).
Proof.
  intros Hfile Hwhisper _. exact (transcribe_audio_run env wav w content segments Hfile Hwhisper).
Qed.

Lemma transcribe_audio_witness :
  let texts := map (fun seg => PyStr.strip (seg_text seg)) (kept_segments demo_segments) in
  transcribe_audio demo_env "/tmp/up_standup.wav" wav_world
  = (Returns (PyStr.join " " texts, map segment_entry (kept_segments demo_segments)),
     World (fs wav_world) (trace wav_world ++ [EvTranscribe "/tmp/up_standup.wav"])
           (wav_path wav_world))
  /\ Forall (fun t => PyStr.nonempty t = true /\ trimmed t = true) texts
  /\ trimmed (PyStr.join " " texts) = true
  /\ (PyStr.nonempty (PyStr.join " " texts) = false <-> kept_segments demo_segments = []).
Proof.
  apply (transcribe_audio_keeps_spoken_segments demo_env "/tmp/up_standup.wav"
           wav_world [b0; b0; b0] demo_segments).
  - vm_compute. reflexivity.
  - reflexivity.
  - reflexivity.
Defined.

(** *** The generators *)


(** *** The formatter *)

Section FormatFacts.

Variable env : Env.

(** The e-mail and the recap only matter through their guards. *)
Lemma format_guards (data : list (string * pyval)) (e1 e2 w1 w2 : string) :
  PyStr.nonempty e1 && negb (email_failed e1) = false ->
  PyStr.nonempty e2 && negb (email_failed e2) = false ->
  PyStr.nonempty w1 && negb (whatsapp_failed w1) = false ->
  PyStr.nonempty w2 && negb (whatsapp_failed w2) = false ->
  format_markdown_block env data e1 w1 = format_markdown_block env data e2 w2.
Proof.
  intros He1 He2 Hw1 Hw2. unfold format_markdown_block.
  cbv zeta.
  destruct (if Py.truthy (Py.or_ (Py.get data "action_points" PNone) (PList [])) then _ else _)
    as [out1|e]; [|reflexivity].
  cbn [obind].
  destruct (if Py.truthy (Py.or_ (Py.get data "tasks" PNone) (PList [])) then _ else _)
    as [out2|e]; [|reflexivity].
  cbn [obind].
  destruct (if Py.truthy (Py.or_ (Py.get data "deadlines" PNone) (PList [])) then _ else _)
    as [out3|e]; [|reflexivity].
  cbn [obind]. rewrite He1, He2, Hw1, Hw2. reflexivity.
Qed.

Lemma render_tasks_of_records (ts : list Task) (out : string) :
  exists out', render_tasks env (map task_to_py ts) out = Returns out'.
Proof.
  revert out. induction ts as [|t ts IH]; intros out; simpl; [eauto|].
  apply IH.
Qed.

(** The report is returned as soon as the three lists can be walked. *)
Lemma format_returns_when (data : list (string * pyval)) (email wa : string) :
  (exists l, Py.iter (Py.or_ (Py.get data "action_points" PNone) (PList []))
             = Returns l) ->
  (exists l, Py.iter (Py.or_ (Py.get data "tasks" PNone) (PList [])) = Returns l
             /\ forall out, exists o, render_tasks env l out = Returns o) ->
  (exists l, Py.iter (Py.or_ (Py.get data "deadlines" PNone) (PList []))
             = Returns l) ->
  exists out, format_markdown_block env data email wa = Returns out.
Proof.
  intros (l1 & H1) (l2 & H2 & Hr) (l3 & H3).
  unfold format_markdown_block. cbv zeta. rewrite H1, H2, H3. cbn [obind].
  destruct (Py.truthy (Py.or_ (Py.get data "action_points" PNone) (PList [])));
    cbn [obind];
    (destruct (Py.truthy (Py.or_ (Py.get data "tasks" PNone) (PList [])));
     cbn [obind];
     [match goal with |- context [render_tasks env l2 ?o] =>
        destruct (Hr o) as [x Hx]; rewrite Hx; cbn [obind] end|]);
    destruct (Py.truthy (Py.or_ (Py.get data "deadlines" PNone) (PList [])));
    cbn [obind]; eauto.
Qed.

Lemma iter_or_list (l : list pyval) :
  exists l', Py.iter (Py.or_ (PList l) (PList [])) = Returns l'.
Proof. destruct l; simpl; eauto. Qed.

Lemma render_tasks_not_dict (t : pyval) (rest : list pyval) (out : string) :
  (forall d, t <> PDict d) ->
  render_tasks env (t :: rest) out
  = Raises (Exception ("'" ++ Py.type_name t ++ "' object has no attribute 'get'")).
Proof.
  intros Ht. destruct t; try reflexivity. now destruct (Ht d).
Qed.





End FormatFacts.




(** X3: an e-mail that is empty or starts, in any letter case, with the
    failure prefix is never echoed: whatever the message after the prefix,
    the report is the one rendered for an empty e-mail, whose section holds
    the line "Could not generate email."; the same holds for the recap. *)
Theorem failure_sentinels_render_as_missing (env : Env)
    (data : list (string * pyval)) (msg1 msg2 : string) :
  format_markdown_block env data
    ("Email generation failed: " +:+ msg1) ("WhatsApp summary failed: " +:+ msg2)
  = format_markdown_block env data EmptyString EmptyString.
Proof.
  apply format_guards; reflexivity.
Qed.

Lemma format_record_returns (env : Env) (r : StructuredRecord)
    (followup_email whatsapp_msg : string) :
  exists out,
    format_markdown_block env (record_to_py r) followup_email whatsapp_msg
    = Returns out.
Proof.
  apply format_returns_when.
  - apply iter_or_list.
  - change (Py.get (record_to_py r) "tasks" PNone)
      with (PList (map task_to_py (tasks r))).
    destruct (tasks r) as [|t ts].
    + exists []. split; [reflexivity|]. intros out. simpl. eauto.
    + eexists. split; [reflexivity|]. intros out.
      apply (render_tasks_of_records env (t :: ts)).
  - apply iter_or_list.
Qed.

(** X4: the formatter returns a report for every record of the shape tier 2
    builds, whatever the e-mail and the recap are. *)
Theorem formatter_returns_on_records (env : Env) (r : StructuredRecord)
    (followup_email whatsapp_msg : string) :
  exists out,
    format_markdown_block env (record_to_py r) followup_email whatsapp_msg
    = Returns out.
Proof. exact (format_record_returns env r followup_email whatsapp_msg). Qed.

(** X5: when the first item of [tasks] is not a dict (and the action points
    are absent), the formatter raises the attribute error of the missing
    [get] method: it does not treat every input as defaultable. *)
Theorem formatter_raises_on_task_without_get (env : Env)
    (data : list (string * pyval)) (t : pyval) (rest : list pyval)
    (followup_email whatsapp_msg : string) :
  Py.lookup "action_points" data = None ->
  Py.lookup "tasks" data = Some (PList (t :: rest)) ->
  (forall d, t <> PDict d) ->
  format_markdown_block env data followup_email whatsapp_msg
  = Raises (Exception ("'" ++ Py.type_name t ++ "' object has no attribute 'get'")).
Proof.
  intros Hap Htasks Ht. unfold format_markdown_block, Py.get.
  rewrite Hap, Htasks. cbv zeta. cbn [Py.or_ Py.truthy Py.iter obind].
  now rewrite render_tasks_not_dict.
Qed.

Lemma formatter_raises_witness :
  format_markdown_block demo_env sloppy_tasks "Subject: Recap" "Logo agreed"
  = Raises (Exception ("'" ++ Py.type_name (PStr "call Bob")
                       ++ "' object has no attribute 'get'")).
Proof.
  apply (formatter_raises_on_task_without_get demo_env sloppy_tasks
           (PStr "call Bob") []).
  - reflexivity.
  - reflexivity.
  - intros d. discriminate.
Defined.

(** *** Tier 1: failures and the isolation of the object *)

Section BracketFacts.

Lemma length_append_str (a b : string) :
  String.length (a +:+ b) = (String.length a + String.length b)%nat.
Proof.
  induction a as [|c a IH]; [reflexivity|].
  rewrite append_cons_str. simpl. now rewrite IH.
Qed.

Lemma find_lacks (c : ascii) (s : string) : lacks c s = true -> PyStr.find c s = (-1)%Z.
Proof.
  induction s as [|d s IH]; simpl; [reflexivity|].
  intros [Hd Hs]%andb_true_iff. apply negb_true_iff in Hd. rewrite Hd.
  now rewrite (IH Hs).
Qed.

Lemma rfind_lacks (c : ascii) (s : string) : lacks c s = true -> PyStr.rfind c s = (-1)%Z.
Proof.
  induction s as [|d s IH]; simpl; [reflexivity|].
  intros [Hd Hs]%andb_true_iff. apply negb_true_iff in Hd.
  now rewrite (IH Hs), Hd.
Qed.

Lemma find_nonneg_or_none (c : ascii) (s : string) :
  (PyStr.find c s = -1 \/ 0 <= PyStr.find c s)%Z.
Proof.
  induction s as [|d s IH]; simpl; [now left|].
  destruct (Ascii.eqb c d); [right; lia|].
  destruct (PyStr.find c s <? 0)%Z eqn:E; [now left | right; lia].
Qed.

(** The first occurrence, when the text before it has none. *)
Lemma find_after (c : ascii) (pre rest : string) :
  lacks c pre = true ->
  PyStr.find c (pre +:+ String c rest) = Z.of_nat (String.length pre).
Proof.
  induction pre as [|d pre IH]; intros H.
  - change (PyStr.find c (String c rest) = 0%Z). simpl.
    now rewrite Ascii.eqb_refl.
  - apply andb_true_iff in H. destruct H as [Hd Hs]. apply negb_true_iff in Hd.
    rewrite append_cons_str. cbn [PyStr.find]. rewrite Hd, (IH Hs).
    destruct (Z.of_nat (String.length pre) <? 0)%Z eqn:E; [lia|].
    cbn [String.length]. lia.
Qed.

(** The last occurrence, when the text after it has none. *)
Lemma rfind_before (c : ascii) (front post : string) :
  lacks c post = true ->
  PyStr.rfind c (front +:+ String c post) = Z.of_nat (String.length front).
Proof.
  intros H. induction front as [|d front IH].
  - change (PyStr.rfind c (String c post) = 0%Z). simpl.
    rewrite (rfind_lacks c post H). simpl. now rewrite Ascii.eqb_refl.
  - rewrite append_cons_str. cbn [PyStr.rfind]. rewrite IH.
    destruct (0 <=? Z.of_nat (String.length front))%Z eqn:E; [|lia].
    cbn [String.length]. lia.
Qed.

Lemma substring_skip (pre s : string) (n : nat) :
  String.substring (String.length pre) n (pre +:+ s) = String.substring 0 n s.
Proof. induction pre as [|c pre IH]; [reflexivity | exact IH]. Qed.

Lemma substring_prefix (mid post : string) :
  String.substring 0 (String.length mid) (mid +:+ post) = mid.
Proof.
  induction mid as [|c mid IH]; [now destruct post|].
  rewrite append_cons_str. simpl. now rewrite IH.
Qed.

(** [s[a:b]] between two positions of [s]. *)
Lemma slice_middle (pre mid post : string) :
  PyStr.slice (pre +:+ mid +:+ post)
    (Z.of_nat (String.length pre))
    (Z.of_nat (String.length pre) + Z.of_nat (String.length mid))
  = mid.
Proof.
  unfold PyStr.slice, PyStr.adjust. rewrite !length_append_str.
  destruct (Z.ltb_spec (Z.of_nat (String.length pre)) 0); [exfalso; lia|].
  destruct (Z.ltb_spec (Z.of_nat (String.length pre)
                        + Z.of_nat (String.length mid)) 0); [exfalso; lia|].
  rewrite !Z.min_l by lia.
  replace (Z.to_nat (Z.of_nat (String.length pre) + Z.of_nat (String.length mid)
                     - Z.of_nat (String.length pre)))
    with (String.length mid) by lia.
  rewrite Nat2Z.id, substring_skip. apply substring_prefix.
Qed.

End BracketFacts.

(** X6: the text handed to [json.loads] is exactly the object, braces
    included, when the prose before it has no opening brace and the prose
    after it has no closing brace; the prose does not reach the parser. *)
Theorem object_is_isolated_from_prose (env : Env) (pre body post : string) :
  lacks "{" pre = true ->
  lacks "}" post = true ->
  let content := pre +:+ String "{" (body +:+ String "}" post) in
  PyStr.slice content (PyStr.find "{" content) (PyStr.rfind "}" content + 1)
  = String "{" (body +:+ "}")
  /\ parse_model_json env content
     = match json_loads env (String "{" (body +:+ "}")) with
       | ExtRaise msg => Raises (Exception msg)
       | ExtOk parsed => sanity_defaults parsed
       end.
Proof.
  intros Hpre Hpost content.
  assert (Hfind : PyStr.find "{" content = Z.of_nat (String.length pre))
    by now apply find_after.
  assert (Hrfind : PyStr.rfind "}" content
                   = Z.of_nat (String.length (pre +:+ String "{" body))).
  { unfold content.
    replace (pre +:+ String "{" (body +:+ String "}" post))
      with ((pre +:+ String "{" body) +:+ String "}" post)
      by (rewrite append_assoc_str; reflexivity).
    now apply rfind_before. }
  assert (Hslice :
    PyStr.slice content (PyStr.find "{" content) (PyStr.rfind "}" content + 1)
    = String "{" (body +:+ "}")).
  { rewrite Hfind, Hrfind.
    replace content with (pre +:+ String "{" (body +:+ "}") +:+ post).
    - replace (Z.of_nat (String.length (pre +:+ String "{" body)) + 1)%Z
        with (Z.of_nat (String.length pre)
              + Z.of_nat (String.length (String "{" (body +:+ "}"))))%Z.
      + apply slice_middle.
      + rewrite length_append_str. cbn [String.length].
        rewrite length_append_str. cbn [String.length]. lia.
    - unfold content. f_equal. rewrite append_cons_str. f_equal.
      rewrite append_assoc_str. reflexivity. }
  split; [exact Hslice|].
  unfold parse_model_json. fold content. rewrite Hslice, Hfind, Hrfind.
  destruct (Z.eqb_spec (Z.of_nat (String.length pre)) (-1)); [exfalso; lia|].
  destruct (Z.eqb_spec (Z.of_nat (String.length (pre +:+ String "{" body))) (-1));
    [exfalso; lia | reflexivity].
Qed.

Lemma object_is_isolated_witness :
  let content := "Here is the JSON: " +:+ String "{" ("" +:+ String "}" " Done.") in
  PyStr.slice content (PyStr.find "{" content) (PyStr.rfind "}" content + 1)
  = String "{" ("" +:+ "}")
  /\ parse_model_json demo_env content
     = match json_loads demo_env (String "{" ("" +:+ "}")) with
       | ExtRaise msg => Raises (Exception msg)
       | ExtOk parsed => sanity_defaults parsed
       end.
Proof.
  apply (object_is_isolated_from_prose demo_env "Here is the JSON: " "" " Done.");
    reflexivity.
Defined.

Section TierOneFacts.

Variables (env : Env) (text : string).

Lemma tier1_of_handle (model : prompt -> generation_config -> ext string) :
  GEMINI_MODEL env = Some model ->
  tier1 env text
  = match model (ExtractPrompt text) (GenConfig 0.1%float GEMINI_MAX_TOKENS) with
    | ExtRaise msg => Raises (Exception ("Gemini call failed: " +:+ msg))
    | ExtOk content =>
        match parse_model_json env content with
        | Returns d => Returns d
        | Raises e => Raises (Exception ("Gemini call failed: " +:+ Py.str_exn e))
        end
    end.
Proof.
  intros Hm. unfold tier1, gemini_extract_structured. rewrite Hm.
  unfold try_except, bind, generate_content, bind, emit, of_ext. simpl.
  destruct (model _ _) as [content|msg]; simpl; [|reflexivity].
  unfold lift. destruct (parse_model_json env content); reflexivity.
Qed.

End TierOneFacts.

(** X7: tier 1 has two outcomes only, the same in every world, and each
    failure keeps its cause.  Without a model handle it raises the fixed
    message.  With one it raises "Gemini call failed: " followed by the
    message of what went wrong: the exception of the model call, the
    missing-brace message, the parser's error, or the attribute error of a
    parsed value that is not an object.  Only an object that parses gives
    a result, and in it all five keys are bound. *)
Theorem tier1_returns_five_keys_or_wraps_failure (env : Env) (text : string)
    (w : world) :
  fst (gemini_extract_structured env text w) = tier1 env text
  /\ (GEMINI_MODEL env = None ->
      tier1 env text
      = Raises (Exception "Gemini model not initialized (API key missing or invalid)."))
  /\ (forall model, GEMINI_MODEL env = Some model ->
      (forall msg,
         model (ExtractPrompt text) (GenConfig 0.1%float GEMINI_MAX_TOKENS)
         = ExtRaise msg ->
         tier1 env text = Raises (Exception ("Gemini call failed: " +:+ msg)))
      /\ (forall content,
            model (ExtractPrompt text) (GenConfig 0.1%float GEMINI_MAX_TOKENS)
            = ExtOk content ->
            (PyStr.find "{" content = (-1)%Z \/ PyStr.rfind "}" content = (-1)%Z ->
             tier1 env text
             = Raises (Exception
                         "Gemini call failed: Gemini did not return a JSON object."))
            /\ (PyStr.find "{" content <> (-1)%Z ->
                PyStr.rfind "}" content <> (-1)%Z ->
                (forall msg,
                   json_loads env
                     (PyStr.slice content (PyStr.find "{" content)
                        (PyStr.rfind "}" content + 1))
                   = ExtRaise msg ->
                   tier1 env text
                   = Raises (Exception ("Gemini call failed: " +:+ msg)))
                /\ (forall v,
                      json_loads env
                        (PyStr.slice content (PyStr.find "{" content)
                           (PyStr.rfind "}" content + 1))
                      = ExtOk v ->
                      (forall obj, v <> PDict obj) ->
                      tier1 env text
                      = Raises (Exception
                                  ("Gemini call failed: '" +:+ Py.type_name v
                                     +:+ "' object has no attribute 'setdefault'")))
                /\ (forall obj,
                      json_loads env
                        (PyStr.slice content (PyStr.find "{" content)
                           (PyStr.rfind "}" content + 1))
                      = ExtOk (PDict obj) ->
                      exists d, tier1 env text = Returns d
                                /\ forall k, In k FIVE_KEYS ->
                                             is_Some (Py.lookup k d)))))
  /\ (forall d, tier1 env text = Returns d ->
      forall k, In k FIVE_KEYS -> is_Some (Py.lookup k d)).
Proof.
  split; [apply tier1_any_world|]. split.
  { intros Hm. unfold tier1, gemini_extract_structured. now rewrite Hm. }
  split.
  - intros model Hm. rewrite (tier1_of_handle env text model Hm). split.
    { intros msg ->. reflexivity. }
    intros content ->. unfold parse_model_json. split.
    { intros [H|H]; rewrite H; [reflexivity|].
      rewrite orb_true_r. reflexivity. }
    intros Hs He. apply Z.eqb_neq in Hs, He. rewrite Hs, He. cbn [orb].
    split; [intros msg ->; reflexivity|]. split.
    + intros v -> Hv. destruct v; try reflexivity. now destruct (Hv d).
    + intros obj ->. destruct (sanity_defaults_spec obj) as (d & Hd & Hkeys & _).
      rewrite Hd. exists d. split; [reflexivity|].
      intros k Hk. rewrite (Hkeys k Hk). eauto.
  - intros d Hd k Hk. unfold tier1, gemini_extract_structured in Hd.
    destruct (GEMINI_MODEL env) as [model|]; [|discriminate].
    unfold try_except, bind, generate_content, bind, emit, of_ext in Hd.
    simpl in Hd.
    destruct (model _ _) as [content|msg]; simpl in Hd; [|discriminate].
    unfold lift in Hd.
    destruct (parse_model_json env content) as [d'|e] eqn:E; simpl in Hd;
      [|discriminate].
    injection Hd as ->. unfold parse_model_json in E.
    destruct (_ || _); [discriminate|].
    destruct (json_loads env _) as [parsed|msg]; [|discriminate].
    destruct parsed; try discriminate.
    destruct (sanity_defaults_spec d0) as (d' & Hd' & Hkeys & _).
    rewrite Hd' in E. injection E as <-. rewrite (Hkeys k Hk). eauto.
Qed.

(** X8: an answer without an opening brace, or without a closing brace, is
    refused before the parser is called, with the message of the source. *)
Theorem answer_without_braces_is_refused (env : Env) (content : string) :
  lacks "{" content = true \/ lacks "}" content = true ->
  parse_model_json env content
  = Raises (Exception "Gemini did not return a JSON object.").
Proof.
  intros H. unfold parse_model_json.
  destruct H as [H|H].
  - rewrite (find_lacks _ _ H). reflexivity.
  - rewrite (rfind_lacks _ _ H). simpl. now rewrite orb_true_r.
Qed.

Lemma answer_without_braces_witness :
  parse_model_json demo_env "I cannot help with that."
  = Raises (Exception "Gemini did not return a JSON object.").
Proof.
  apply (answer_without_braces_is_refused demo_env "I cannot help with that.").
  left. reflexivity.
Defined.

(** *** What a match consumes and captures *)

Section CaptureFacts.

Variable ic : bool.

Lemma star_greedy_inv2 cs p s cp st' :
  In st' (star_greedy ic cs p s cp) ->
  exists pre, s = pre +:+ rest st'
              /\ str_forall (cmatch ic cs) pre = true /\ caps st' = cp.
Proof.
  revert p. induction s as [|c s IH]; intros p; simpl.
  - intros [<-|[]]. exists EmptyString. auto.
  - destruct (cmatch ic cs c) eqn:E.
    + rewrite in_app_iff. intros [H|[<-|[]]].
      * destruct (IH _ H) as (pre & Hs & Hall & Hc).
        exists (String c pre). rewrite append_cons_str, <- Hs. simpl.
        now rewrite E, Hall.
      * exists EmptyString. auto.
    + intros [<-|[]]. exists EmptyString. auto.
Qed.

Lemma star_lazy_inv2 cs p s cp st' :
  In st' (star_lazy ic cs p s cp) ->
  exists pre, s = pre +:+ rest st'
              /\ str_forall (cmatch ic cs) pre = true /\ caps st' = cp.
Proof.
  revert p. induction s as [|c s IH]; intros p; simpl.
  - intros [<-|[]]. exists EmptyString. auto.
  - intros [<-|H]; [exists EmptyString; auto|].
    destruct (cmatch ic cs c) eqn:E; [|destruct H].
    destruct (IH _ H) as (pre & Hs & Hall & Hc).
    exists (String c pre). rewrite append_cons_str, <- Hs. simpl.
    now rewrite E, Hall.
Qed.

(** A match consumes a prefix of the text at the cursor. *)
Lemma exec_suffix r st st' :
  In st' (exec ic r st) -> exists pre, rest st = pre +:+ rest st'.
Proof.
  revert st st'. induction r; intros st st'; simpl.
  - intros [<-|[]]. now exists EmptyString.
  - destruct (rest st) as [|c s]; [intros []|].
    destruct (cmatch ic cs c); [|intros []]. intros [<-|[]].
    now exists (String c EmptyString).
  - rewrite in_flat_map. intros (mid & H1 & H2).
    destruct (IHr1 _ _ H1) as (p1 & E1). destruct (IHr2 _ _ H2) as (p2 & E2).
    exists (p1 +:+ p2). now rewrite E1, E2, append_assoc_str.
  - rewrite in_app_iff. intros [H|H]; eauto.
  - intros H. apply star_greedy_inv2 in H. destruct H as (pre & H & _). eauto.
  - destruct (rest st) as [|c s]; [intros []|].
    destruct (cmatch ic cs c); [|intros []].
    intros H. apply star_greedy_inv2 in H. destruct H as (pre & -> & _).
    now exists (String c pre).
  - destruct (rest st) as [|c s]; [intros []|].
    destruct (cmatch ic cs c); [|intros []].
    intros H. apply star_lazy_inv2 in H. destruct H as (pre & -> & _).
    now exists (String c pre).
  - rewrite in_map_iff. intros (mid & <- & H). simpl. eauto.
  - intros H. exists EmptyString.
    destruct (rest st) as [|c [|d s]] eqn:E.
    + destruct H as [<-|[]]. now rewrite E.
    + destruct (Ascii.eqb c PyStr.newline); [|destruct H].
      destruct H as [<-|[]]. now rewrite E.
    + destruct H.
  - destruct (prev st) as [c|]; [|intros []].
    destruct (cmatch ic cs c); [|intros []].
    intros [<-|[]]. now exists EmptyString.
Qed.

(** A group that does not occur in a pattern keeps its binding. *)
Lemma exec_caps_other r st st' n :
  ~ In n (groups_of r) -> In st' (exec ic r st) ->
  assoc n (caps st') = assoc n (caps st).
Proof.
  revert st st'. induction r; intros st st' Hn; simpl in *.
  - intros [<-|[]]. reflexivity.
  - destruct (rest st) as [|c s]; [intros []|].
    destruct (cmatch ic cs c); [|intros []]. intros [<-|[]]. reflexivity.
  - rewrite in_app_iff in Hn. rewrite in_flat_map. intros (mid & H1 & H2).
    rewrite (IHr2 _ _ ltac:(tauto) H2). apply IHr1; tauto.
  - rewrite in_app_iff in Hn. rewrite in_app_iff.
    intros [H|H]; [apply IHr1 | apply IHr2]; tauto.
  - intros H. apply star_greedy_inv2 in H. destruct H as (_ & _ & _ & ->).
    reflexivity.
  - destruct (rest st) as [|c s]; [intros []|].
    destruct (cmatch ic cs c); [|intros []].
    intros H. apply star_greedy_inv2 in H. destruct H as (_ & _ & _ & ->).
    reflexivity.
  - destruct (rest st) as [|c s]; [intros []|].
    destruct (cmatch ic cs c); [|intros []].
    intros H. apply star_lazy_inv2 in H. destruct H as (_ & _ & _ & ->).
    reflexivity.
  - rewrite in_map_iff. intros (mid & <- & H). simpl.
    destruct (Nat.eqb_spec n0 n) as [->|Hne]; [tauto|].
    apply IHr; tauto.
  - destruct (rest st) as [|c [|d s]].
    + intros [<-|[]]. reflexivity.
    + destruct (Ascii.eqb c PyStr.newline); [|intros []].
      intros [<-|[]]. reflexivity.
    + intros [].
  - destruct (prev st) as [c|]; [|intros []].
    destruct (cmatch ic cs c); [|intros []].
    intros [<-|[]]. reflexivity.
Qed.

Lemma consumed_app (pre s : string) : consumed (pre +:+ s) s = pre.
Proof.
  unfold consumed. rewrite length_append_str.
  replace (String.length pre + String.length s - String.length s)%nat
    with (String.length pre) by lia.
  apply substring_prefix.
Qed.

Lemma match_here_consumed r p s st' :
  match_here ic r p s = Some st' -> s = consumed s (rest st') +:+ rest st'.
Proof.
  unfold match_here. intros E. apply head_In, exec_suffix in E.
  destruct E as (pre & E). simpl in E. subst s. now rewrite consumed_app.
Qed.

(** The text [m.group(0)] of a match found by a search occurs in the
    subject. *)
Lemma search_from_occurs r p s i m :
  search_from ic r p s i = Some m ->
  exists a b, s = a +:+ group0 m +:+ b.
Proof.
  revert p i. induction s as [|c s IH]; intros p i; simpl.
  - destruct (match_here ic r p EmptyString) as [st'|] eqn:E; [|discriminate].
    intros [= <-]. exists EmptyString, (rest st'). simpl.
    now apply match_here_consumed in E.
  - destruct (match_here ic r p (String c s)) as [st'|] eqn:E.
    + intros [= <-]. exists EmptyString, (rest st'). simpl.
      now apply match_here_consumed in E.
    + intros H. destruct (IH _ _ H) as (a & b & ->).
      now exists (String c a), b.
Qed.

Lemma contains_prefix (s k : string) :
  String.prefix k s = true -> PyStr.contains s k = true.
Proof. intros H. destruct s; cbn [PyStr.contains]; now rewrite H. Qed.

Lemma contains_occurrence (a g b : string) :
  PyStr.contains (a +:+ g +:+ b) g = true.
Proof.
  induction a as [|c a IH].
  - change (PyStr.contains (g +:+ b) g = true). apply contains_prefix, prefix_app.
  - rewrite append_cons_str. cbn [PyStr.contains]. rewrite IH. apply orb_true_r.
Qed.

End CaptureFacts.

Lemma exec_name_group st st' :
  In st' (exec false name_group st) ->
  exists name, assoc 1 (caps st') = Some name /\ is_name name = true.
Proof.
  unfold name_group.
  change (exec false (RGroup 1 (RSeq (RSet (CRange "A" "Z")) (RPlus (CRange "a" "z")))) st)
    with (map (fun st' => MState (prev st') (rest st')
                            ((1%nat, consumed (rest st) (rest st')) :: caps st'))
              (flat_map (exec false (RPlus (CRange "a" "z")))
                        (exec false (RSet (CRange "A" "Z")) st))).
  rewrite in_map_iff. intros (st2 & <- & H). simpl.
  eexists. split; [reflexivity|].
  apply in_flat_map in H. destruct H as (st1 & H1 & H2). simpl in H1, H2.
  destruct (rest st) as [|c s] eqn:Es; [destruct H1|].
  destruct (cmatch false (CRange "A" "Z") c) eqn:Ec; [|destruct H1].
  destruct H1 as [<-|[]]. simpl in H2.
  destruct s as [|d s]; [destruct H2|].
  destruct (cmatch false (CRange "a" "z") d) eqn:Ed; [|destruct H2].
  apply star_greedy_inv2 in H2. destruct H2 as (pre & -> & Hall & _).
  change (String c (String d (pre +:+ rest st2)))
    with ((String c (String d pre)) +:+ rest st2).
  rewrite consumed_app. simpl.
  unfold cmatch in Ec, Ed. simpl in Ec, Ed. rewrite orb_false_r in Ec, Ed.
  unfold PyStr.is_upper, PyStr.is_lower. rewrite Ec, Ed. simpl.
  clear -Hall. induction pre as [|x pre IH]; [reflexivity|].
  simpl in *. apply andb_true_iff in Hall. destruct Hall as [Hx Hall].
  unfold cmatch in Hx. simpl in Hx. rewrite orb_false_r in Hx.
  now rewrite Hx, IH.
Qed.

Lemma search_from_name r p s i m :
  starts_with_name r -> search_from false r p s i = Some m ->
  is_name (group m 1) = true.
Proof.
  intros (tail & -> & Hno). revert p i.
  assert (Hexec : forall st st',
             In st' (exec false (RSeq name_group tail) st) ->
             exists name, assoc 1 (caps st') = Some name /\ is_name name = true).
  { intros st st'.
    change (exec false (RSeq name_group tail) st)
      with (flat_map (exec false tail) (exec false name_group st)).
    rewrite in_flat_map. intros (mid & H1 & H2).
    rewrite (exec_caps_other false tail _ _ 1 Hno H2).
    now apply (exec_name_group st). }
  induction s as [|c s IH]; intros p i; cbn [search_from].
  - destruct (match_here false (RSeq name_group tail) p EmptyString)
      as [st'|] eqn:E; [|discriminate].
    intros [= <-]. unfold match_here in E.
    apply head_In, Hexec in E. destruct E as (name & Hn & Hname).
    unfold group. simpl. now rewrite Hn.
  - destruct (match_here false (RSeq name_group tail) p (String c s))
      as [st'|] eqn:E.
    + intros [= <-]. unfold match_here in E.
      apply head_In, Hexec in E. destruct E as (name & Hn & Hname).
      unfold group. simpl. now rewrite Hn.
    + apply IH.
Qed.

Lemma TASK_PATTERNS_start_with_name : Forall starts_with_name TASK_PATTERNS.
Proof.
  unfold TASK_PATTERNS. repeat constructor;
    (eexists; split; [reflexivity|]; simpl; intros H;
     repeat (destruct H as [H|H]; [discriminate|]); exact H).
Qed.

(** *** Tier 2: where its entries come from *)

Lemma task_match_name (s : string) (m : rmatch) :
  In m (task_matches s) -> is_name (group m 1) = true.
Proof.
  unfold task_matches. intros H.
  apply list_elem_of_In, list_elem_of_omap in H. destruct H as (pat & Hpat & Hm).
  pose proof TASK_PATTERNS_start_with_name as Hall.
  rewrite Forall_forall in Hall.
  eapply search_from_name; [|exact Hm]. apply Hall, Hpat.
Qed.

Lemma deadline_match_occurs (s d : string) :
  In d (deadline_matches s) -> PyStr.contains s d = true.
Proof.
  unfold deadline_matches. intros H.
  apply list_elem_of_In, list_elem_of_omap in H. destruct H as (dp & _ & Hd).
  destruct (search true dp s) as [m|] eqn:E; [|discriminate].
  injection Hd as <-. apply search_from_occurs in E.
  destruct E as (a & b & E). rewrite E at 1. apply contains_occurrence.
Qed.

Lemma first_deadline_listed (s d : string) :
  first_deadline s = Some d -> In d (sentence_deadlines s).
Proof.
  unfold first_deadline, sentence_deadlines. intros H.
  apply in_or_app. right. now apply head_In.
Qed.

(** X9: every Task of tier 2 names one person, speaker and assignee alike,
    by a capitalised word (an upper-case letter followed by lower-case
    letters); its source is one of the sentences of the transcript; its task
    text has no white space at either end; and its deadline, when it has
    one, is also an entry of the record's [deadlines]. *)
Theorem tier2_tasks_are_named_and_sourced (text : string) :
  Forall (fun t =>
            speaker t = assignee t
            /\ is_name (assignee t) = true
            /\ In (source t) (sentences_of text)
            /\ trimmed (task t) = true
            /\ forall d, deadline t = Some d -> In d (deadlines (local_extract text)))
    (tasks (local_extract text)).
Proof.
  unfold local_extract. fold (collected text). rewrite collected_spec. simpl.
  apply Forall_forall. intros t Ht.
  apply list_elem_of_In, in_flat_map in Ht. destruct Ht as (s & Hs & Ht).
  unfold sentence_tasks in Ht. apply in_map_iff in Ht.
  destruct Ht as (m & <- & Hm). simpl.
  split; [reflexivity|]. split; [now apply (task_match_name s)|].
  split; [exact Hs|]. split; [apply strip_trimmed|].
  intros d Hd. apply list_elem_of_In, dict_fromkeys_elem, list_elem_of_In.
  apply in_flat_map. exists s. split; [exact Hs | now apply first_deadline_listed].
Qed.

(** X10: the action points of tier 2 are exactly the sentences that contain
    one of the six keywords in lower case, and every entry of [deadlines]
    is a phrase that occurs, letter for letter, in one of the sentences. *)
Theorem tier2_lists_come_from_sentences (text : string) :
  (forall a, In a (action_points (local_extract text))
             <-> In a (sentences_of text) /\ is_action_point a = true)
  /\ (forall d, In d (deadlines (local_extract text)) ->
                exists s, In s (sentences_of text) /\ PyStr.contains s d = true).
Proof.
  unfold local_extract. fold (collected text). rewrite collected_spec. simpl.
  split.
  - intros a. rewrite <- filter_In, <- !list_elem_of_In. apply dict_fromkeys_elem.
  - intros d Hd.
    apply list_elem_of_In, dict_fromkeys_elem, list_elem_of_In, in_flat_map in Hd.
    destruct Hd as (s & Hs & Hd). exists s. split; [exact Hs|].
    unfold sentence_deadlines in Hd. apply in_app_or in Hd.
    destruct Hd as [Hd|Hd]; [|now apply deadline_match_occurs].
    apply in_flat_map in Hd. destruct Hd as (m & _ & Hd).
    destruct (first_deadline s) as [d'|] eqn:E; [|destruct Hd].
    destruct Hd as [<-|[]].
    apply deadline_match_occurs. unfold first_deadline in E. now apply head_In.
Qed.

(** *** Sentences *)

Section SentenceFacts.

Lemma space_is_not_punct (c : ascii) : PyStr.is_space c = true -> is_punct c = false.
Proof.
  destruct c as [[] [] [] [] [] [] [] []]; intros H; try reflexivity; discriminate H.
Qed.

Lemma head_app_some {A} (l l' : list A) (x : A) :
  head l = Some x -> head (l ++ l') = Some x.
Proof. destruct l; [discriminate | now intros [= ->]]. Qed.

(** The first way [\s*] matches is the longest run of white space. *)
Lemma star_greedy_space_head p s cp :
  exists p', head (star_greedy false CSpace p s cp)
             = Some (MState p' (PyStr.lstrip s) cp).
Proof.
  revert p. induction s as [|c s IH]; intros p; simpl; [eauto|].
  unfold cmatch. simpl. rewrite orb_false_r.
  destruct (PyStr.is_space c); [|eauto].
  destruct (IH (Some c)) as (p' & H). exists p'. now apply head_app_some.
Qed.

(** The separator matches at the cursor exactly after [.], [!] or [?] and
    before white space, and then takes all the white space. *)
Lemma sep_match_inv p s st' :
  match_here false SENTENCE_SEP p s = Some st' ->
  exists c d s', p = Some c /\ is_punct c = true /\ s = String d s'
                 /\ PyStr.is_space d = true /\ rest st' = PyStr.lstrip s'.
Proof.
  unfold match_here, SENTENCE_SEP.
  change (exec false (RSeq (RBehind _) (RPlus CSpace)) (MState p s []))
    with (flat_map (exec false (RPlus CSpace))
            (exec false (RBehind (CUnion (CChar ".") (CUnion (CChar "!") (CChar "?"))))
               (MState p s []))).
  cbn [exec prev]. destruct p as [c|]; [|discriminate].
  unfold cmatch. rewrite andb_false_l, orb_false_r. fold (is_punct c).
  destruct (is_punct c) eqn:Ec; [|discriminate].
  cbn [flat_map exec rest caps]. rewrite app_nil_r.
  destruct s as [|d s']; [discriminate|].
  unfold cmatch. cbn [cset_mem]. rewrite andb_false_l, orb_false_r.
  destruct (PyStr.is_space d) eqn:Ed; [|discriminate].
  destruct (star_greedy_space_head (Some d) s' []) as (p' & ->).
  intros [= <-]. exists c, d, s'. auto.
Qed.

Lemma sep_match_not_punct p s :
  not_punct p -> match_here false SENTENCE_SEP p s = None.
Proof.
  intros Hp. destruct (match_here false SENTENCE_SEP p s) as [st'|] eqn:E;
    [|reflexivity].
  apply sep_match_inv in E. destruct E as (c & d & s' & -> & Hc & _).
  rewrite (Hp c eq_refl) in Hc. discriminate.
Qed.

Lemma lstrip_decomp (s : string) :
  exists sp, s = sp +:+ PyStr.lstrip s /\ all_space sp = true.
Proof.
  induction s as [|c s IH]; [now exists EmptyString|]. simpl.
  destruct (PyStr.is_space c) eqn:E; [|now exists EmptyString].
  destruct IH as (sp & Hs & Hsp). exists (String c sp).
  rewrite append_cons_str, <- Hs. simpl. now rewrite E, Hsp.
Qed.

(** Dropping the rest of a separator. *)
Lemma split_skip r sp t p cur :
  all_space sp = true -> not_punct p ->
  exists p', split_from r p (String.length sp) cur (sp +:+ t) = split_from r p' 0 cur t
             /\ not_punct p'.
Proof.
  revert p. induction sp as [|c sp IH]; intros p Hsp Hp; [now exists p|].
  simpl in Hsp. apply andb_true_iff in Hsp. destruct Hsp as [Hc Hsp].
  destruct (IH (Some c) Hsp) as (p' & H & Hp').
  { intros ? [= <-]. now apply space_is_not_punct. }
  exists p'. split; [|exact Hp']. rewrite append_cons_str. exact H.
Qed.

Lemma split_from_cons r p cur c s' :
  split_from r p 0 cur (String c s')
  = match match_here false r p (String c s') with
    | Some st' =>
        match (String.length (String c s') - String.length (rest st'))%nat with
        | S k => cur :: split_from r (Some c) k EmptyString s'
        | O => split_from r (Some c) 0 (cur +:+ String c EmptyString) s'
        end
    | None => split_from r (Some c) 0 (cur +:+ String c EmptyString) s'
    end.
Proof. reflexivity. Qed.

Lemma last_char_snoc (s : string) (c : ascii) :
  last_char (s +:+ String c EmptyString) = Some c.
Proof.
  induction s as [|d s IH]; [reflexivity|].
  rewrite append_cons_str. cbn [last_char]. rewrite IH.
  destruct (s +:+ String c EmptyString) eqn:E; [|reflexivity].
  destruct s; discriminate.
Qed.

Lemma snoc_nonempty (s : string) (c : ascii) : s +:+ String c EmptyString <> EmptyString.
Proof. destruct s; discriminate. Qed.

(** The shape of what the split returns, from any cursor between two
    separators. *)
Lemma split_shape (n : nat) :
  forall s p cur,
    (String.length s <= n)%nat ->
    (cur = EmptyString -> not_punct p) ->
    (cur <> EmptyString -> p = last_char cur) ->
    exists first others,
      split_from SENTENCE_SEP p 0 cur s = first :: others
      /\ starts_clean first = starts_clean (cur +:+ s)
      /\ Forall (fun x => starts_clean x = true) others
      /\ all_but_last ends_punct (first :: others) = true.
Proof.
  induction n as [|n IH]; intros s p cur Hlen Hempty Hlast.
  - destruct s; [|simpl in Hlen; lia].
    exists cur, []. rewrite append_nil_r_str. auto.
  - destruct s as [|c s'].
    { exists cur, []. rewrite append_nil_r_str. auto. }
    simpl in Hlen. rewrite split_from_cons.
    assert (Hnone :
      exists first others,
        split_from SENTENCE_SEP (Some c) 0 (cur +:+ String c EmptyString) s'
        = first :: others
        /\ starts_clean first = starts_clean (cur +:+ String c s')
        /\ Forall (fun x => starts_clean x = true) others
        /\ all_but_last ends_punct (first :: others) = true).
    { destruct (IH s' (Some c) (cur +:+ String c EmptyString)) as (f & o & H1 & H2 & H3).
      - lia.
      - intros H. now apply snoc_nonempty in H.
      - intros _. now rewrite last_char_snoc.
      - exists f, o. split; [exact H1|]. split; [|exact H3].
        rewrite H2, append_assoc_str. reflexivity. }
    destruct (match_here false SENTENCE_SEP p (String c s')) as [st'|] eqn:E;
      [|exact Hnone].
    apply sep_match_inv in E.
    destruct E as (pc & d & s'' & -> & Hpc & [= <- <-] & Hd & Hrest).
    destruct (lstrip_decomp s') as (sp & Hs' & Hsp).
    assert (Hk : (String.length (String c s') - String.length (rest st'))%nat
                 = S (String.length sp)).
    { rewrite Hrest. cbn [String.length]. rewrite Hs' at 1.
      rewrite length_append_str. lia. }
    rewrite Hk.
    assert (Hcur : cur <> EmptyString).
    { intros ->. specialize (Hempty eq_refl pc eq_refl). congruence. }
    destruct (split_skip SENTENCE_SEP sp (PyStr.lstrip s') (Some c) EmptyString Hsp)
      as (p' & Hskip & Hp').
    { intros ? [= <-]. now apply space_is_not_punct. }
    rewrite <- Hs' in Hskip. rewrite Hskip.
    destruct (IH (PyStr.lstrip s') p' EmptyString) as (f & o & H1 & H2 & H3 & H4).
    + rewrite Hs' in Hlen. rewrite length_append_str in Hlen. lia.
    + intros _. exact Hp'.
    + congruence.
    + exists cur, (f :: o). rewrite H1. split; [reflexivity|].
      split; [now rewrite starts_clean_app|]. split.
      * constructor; [|exact H3].
        rewrite H2. change (starts_clean (PyStr.lstrip s') = true).
        apply lstrip_starts_clean.
      * change (ends_punct cur && all_but_last ends_punct (f :: o) = true).
        rewrite H4, andb_true_r. unfold ends_punct.
        now rewrite <- (Hlast Hcur).
Qed.

(** Without [.], [!] and [?] nothing is split. *)
Lemma split_without_punct (s : string) :
  forall p cur,
    str_forall (fun c => negb (is_punct c)) s = true -> not_punct p ->
    split_from SENTENCE_SEP p 0 cur s = [cur +:+ s].
Proof.
  induction s as [|c s IH]; intros p cur Hs Hp.
  - now rewrite append_nil_r_str.
  - simpl in Hs. apply andb_true_iff in Hs. destruct Hs as [Hc Hs].
    apply negb_true_iff in Hc.
    rewrite split_from_cons, (sep_match_not_punct _ _ Hp).
    rewrite IH; [now rewrite append_assoc_str | exact Hs|].
    now intros ? [= <-].
Qed.

End SentenceFacts.

(** X11: the transcript is cut into at least one sentence; every sentence
    but the last ends with [.], [!] or [?], and no sentence but the first
    starts with white space (the white space between sentences belongs to
    none of them). *)
Theorem sentences_end_with_punctuation (text : string) :
  exists first others,
    sentences_of text = first :: others
    /\ Forall (fun s => starts_clean s = true) others
    /\ all_but_last ends_punct (first :: others) = true.
Proof.
  destruct (split_shape (String.length text) text None EmptyString)
    as (f & o & H1 & _ & H3 & H4).
  - lia.
  - intros _ c H. discriminate.
  - congruence.
  - exists f, o. auto.
Qed.

(** X12: a transcript without [.], [!] and [?] is one sentence, the whole
    text, so its summary is the stripped text (or the sentinel when the
    text is blank) and it gives at most one action point. *)
Theorem unpunctuated_transcript_is_one_sentence (text : string) :
  str_forall (fun c => negb (is_punct c)) text = true ->
  sentences_of text = [text]
  /\ summary (local_extract text)
     = (if PyStr.nonempty (PyStr.strip text)
        then PyStr.strip text else "No summary available.")
  /\ action_points (local_extract text)
     = (if is_action_point text then [text] else []).
Proof.
  intros H.
  assert (Hs : sentences_of text = [text]).
  { unfold sentences_of, Re.split. rewrite split_without_punct;
      [reflexivity | exact H | intros c Hc; discriminate]. }
  split; [exact Hs|].
  unfold local_extract. fold (collected text). rewrite collected_spec, Hs. simpl.
  split; [reflexivity|].
  destruct (is_action_point text); reflexivity.
Qed.

Lemma unpunctuated_transcript_witness :
  sentences_of "we should ship on time" = ["we should ship on time"]
  /\ summary (local_extract "we should ship on time")
     = (if PyStr.nonempty (PyStr.strip "we should ship on time")
        then PyStr.strip "we should ship on time" else "No summary available.")
  /\ action_points (local_extract "we should ship on time")
     = (if is_action_point "we should ship on time"
        then ["we should ship on time"] else []).
Proof.
  apply (unpunctuated_transcript_is_one_sentence "we should ship on time").
  reflexivity.
Defined.

(** *** The request: error paths *)

Section RunFacts.

Context {A B : Type}.


Lemma bind_raises_eq (m : M A) (k : A -> M B) w e w1 :
  m w = (Raises e, w1) -> bind m k w = (Raises e, w1).
Proof. intros H. unfold bind. now rewrite H. Qed.

End RunFacts.


Lemma convert_to_wav_fails env p w content msg :
  fs w !! p = Some content -> decode_audio env content = ExtRaise msg ->
  convert_to_wav env p w
  = (Raises (Exception msg), World (fs w) (trace w ++ [EvDecode p]) (wav_path w)).
Proof.
  intros Hf Hd. unfold convert_to_wav, bind, emit. simpl. now rewrite Hf, Hd.
Qed.

Lemma unlink_existing (p : string) (m : gmap string bytes) (c : bytes) :
  m !! p = Some c -> unlink_if_exists p m = delete p m.
Proof. intros H. unfold unlink_if_exists. rewrite bool_decide_eq_true_2; eauto. Qed.

(** X13: when the upload could be opened and saved and the decoder rejects
    it, the request ends with the decoder's own exception (it is not turned
    into an HTTP 400), the speech engine and the model are never called,
    and the upload is deleted. *)
Theorem decoder_failure_ends_the_request (env : Env) (audio : UploadFile)
    (target_lang : option string) (w : world) (msg : string) :
  openable (upload_name env audio) = true ->
  upload_readable (reads audio) = true ->
  decode_audio env (uploaded_bytes (reads audio)) = ExtRaise msg ->
  summarize_meeting env audio target_lang w
  = (Raises (Exception msg),
     World (delete (upload_path env audio) (fs w))
           (trace w ++ [EvDecode (upload_path env audio)]) None).
Proof.
  intros Ho Hr Hd. rewrite summarize_meeting_saved by assumption.
  unfold try_finally, process.
  erewrite bind_raises_eq;
    [|eapply convert_to_wav_fails; [simpl; apply lookup_insert_eq | exact Hd]].
  unfold cleanup. simpl.
  erewrite unlink_existing by apply lookup_insert_eq.
  now rewrite delete_insert_eq.
Qed.

Lemma decoder_failure_witness :
  summarize_meeting undecodable_env demo_audio None empty_world
  = (Raises (Exception "Decoding failed. ffmpeg returned error code: 1"),
     World (delete (upload_path undecodable_env demo_audio) (fs empty_world))
           (trace empty_world ++ [EvDecode (upload_path undecodable_env demo_audio)])
           None).
Proof.
  apply (decoder_failure_ends_the_request undecodable_env demo_audio None
           empty_world "Decoding failed. ffmpeg returned error code: 1");
    reflexivity.
Defined.




(** *** The request: how many calls it makes *)

Section Counting.

Variable f : event -> bool.

Lemma counts_weaken {A} (m : M A) (a b : nat) :
  (a <= b)%nat -> counts_at_most f a m -> counts_at_most f b m.
Proof.
  intros Hab H w. destruct (H w) as (evs & E & L). exists evs. split; [exact E | lia].
Qed.

Lemma counts_silent {A} (m : M A) :
  (forall w, trace (snd (m w)) = trace w) -> counts_at_most f 0 m.
Proof. intros H w. exists []. rewrite app_nil_r. split; [apply H | reflexivity]. Qed.

Lemma counts_bind {A B} (m : M A) (k : A -> M B) (a b : nat) :
  counts_at_most f a m -> (forall x, counts_at_most f b (k x)) ->
  counts_at_most f (a + b) (bind m k).
Proof.
  intros Hm Hk w. unfold bind. destruct (Hm w) as (e1 & E1 & L1).
  destruct (m w) as [[x|e] w1]; simpl in *.
  - destruct (Hk x w1) as (e2 & E2 & L2). exists (e1 ++ e2).
    rewrite E2, E1, app_assoc, List.filter_app, length_app. split; [reflexivity | lia].
  - exists e1. split; [exact E1 | lia].
Qed.

Lemma counts_try_except {A} (body : M A) (handler : exn -> M A) (a b : nat) :
  counts_at_most f a body -> (forall e, counts_at_most f b (handler e)) ->
  counts_at_most f (a + b) (try_except body handler).
Proof.
  intros Hm Hk w. unfold try_except. destruct (Hm w) as (e1 & E1 & L1).
  destruct (body w) as [[x|e] w1]; simpl in *.
  - exists e1. split; [exact E1 | lia].
  - destruct (Hk e w1) as (e2 & E2 & L2). exists (e1 ++ e2).
    rewrite E2, E1, app_assoc, List.filter_app, length_app. split; [reflexivity | lia].
Qed.

Lemma counts_emit (e : event) : counts_at_most f (Nat.b2n (f e)) (emit e).
Proof.
  intros w. exists [e]. split; [reflexivity|]. simpl. now destruct (f e).
Qed.

Lemma counts_generate_content model p cfg :
  counts_at_most f (Nat.b2n (f (EvGenerate p cfg))) (generate_content model p cfg).
Proof.
  unfold generate_content.
  eapply counts_weaken; [|apply counts_bind; [apply counts_emit|]].
  - rewrite Nat.add_0_r. reflexivity.
  - intros _. apply counts_silent. intros w. now destruct (model p cfg).
Qed.

(** The weight of each kind of call under [f]. *)
Variables nd nt nx ne nw nl : nat.
Hypothesis decode_weight : forall p, (Nat.b2n (f (EvDecode p)) <= nd)%nat.
Hypothesis transcribe_weight : forall p, (Nat.b2n (f (EvTranscribe p)) <= nt)%nat.
Hypothesis extract_weight :
  forall t cfg, (Nat.b2n (f (EvGenerate (ExtractPrompt t) cfg)) <= nx)%nat.
Hypothesis email_weight :
  forall s t cfg, (Nat.b2n (f (EvGenerate (EmailPrompt s t) cfg)) <= ne)%nat.
Hypothesis whatsapp_weight :
  forall s cfg, (Nat.b2n (f (EvGenerate (WhatsappPrompt s) cfg)) <= nw)%nat.
Hypothesis translate_weight :
  forall s t cfg, (Nat.b2n (f (EvGenerate (TranslatePrompt s t) cfg)) <= nl)%nat.

Lemma counts_ret_any {A} (a : A) (n : nat) : counts_at_most f n (ret a).
Proof. eapply counts_weaken; [|now apply counts_silent]. lia. Qed.

Lemma counts_raise_any {A} (e : exn) (n : nat) : counts_at_most f n (@raise A e).
Proof. eapply counts_weaken; [|now apply counts_silent]. lia. Qed.

Lemma counts_called_once {A} model p cfg (n : nat) (k : string -> M A)
    (handler : exn -> M A) :
  (Nat.b2n (f (EvGenerate p cfg)) <= n)%nat ->
  (forall x, counts_at_most f 0 (k x)) ->
  (forall e, counts_at_most f 0 (handler e)) ->
  counts_at_most f n (try_except (bind (generate_content model p cfg) k) handler).
Proof.
  intros Hn Hk Hh.
  eapply counts_weaken;
    [|apply counts_try_except;
      [apply counts_bind; [apply counts_generate_content | exact Hk] | exact Hh]].
  lia.
Qed.

Lemma counts_transcribe env wav : counts_at_most f nt (transcribe_audio env wav).
Proof.
  unfold transcribe_audio.
  eapply counts_weaken; [|apply counts_bind; [apply counts_emit|]].
  - rewrite Nat.add_0_r. apply transcribe_weight.
  - intros _. apply counts_silent. intros w.
    destruct (fs w !! wav) as [content|]; [|reflexivity].
    destruct (whisper_transcribe env content); [|reflexivity].
    now destruct (collect_segments _ _ _).
Qed.

Lemma counts_convert env p : counts_at_most f nd (convert_to_wav env p).
Proof.
  unfold convert_to_wav.
  eapply counts_weaken; [|apply counts_bind; [apply counts_emit|]].
  - rewrite Nat.add_0_r. apply decode_weight.
  - intros _. apply counts_silent. intros w.
    destruct (fs w !! p) as [content|]; [|reflexivity].
    now destruct (decode_audio env content).
Qed.

Lemma counts_extract_with_fallback env transcript :
  counts_at_most f nx (extract_with_fallback env transcript).
Proof.
  unfold extract_with_fallback.
  eapply counts_weaken;
    [|apply counts_try_except;
      [apply counts_bind|intros e; apply (counts_ret_any _ 0)]].
  2: { unfold gemini_extract_structured.
       destruct (GEMINI_MODEL env) as [model|]; [|apply (counts_raise_any _ nx)].
       apply counts_called_once; [apply extract_weight | |].
       - intros x. now apply counts_silent.
       - intros e. apply (counts_raise_any _ 0). }
  2: { intros x. apply (counts_ret_any _ 0). }
  lia.
Qed.

Lemma counts_followup_email env summary tasks :
  counts_at_most f ne (gemini_generate_followup_email env summary tasks).
Proof.
  unfold gemini_generate_followup_email.
  destruct (GEMINI_MODEL env) as [model|]; [|apply counts_ret_any].
  apply counts_called_once; [apply email_weight | |]; intros; apply counts_ret_any.
Qed.

Lemma counts_whatsapp env summary :
  counts_at_most f nw (gemini_generate_whatsapp env summary).
Proof.
  unfold gemini_generate_whatsapp.
  destruct (GEMINI_MODEL env) as [model|]; [|apply counts_ret_any].
  apply counts_called_once; [apply whatsapp_weight | |]; intros; apply counts_ret_any.
Qed.

Lemma counts_translate env summary target_lang :
  counts_at_most f nl (gemini_translate_summary env summary target_lang).
Proof.
  unfold gemini_translate_summary.
  destruct (GEMINI_MODEL env) as [model|]; [|apply counts_ret_any].
  destruct (negb _); [apply counts_ret_any|].
  apply counts_called_once; [apply translate_weight | |]; intros; apply counts_ret_any.
Qed.

Lemma counts_process_wav env wav target_lang :
  counts_at_most f (nt + (nx + (ne + (nw + (nl + 0)))))
    (process_wav env wav target_lang).
Proof.
  unfold process_wav.
  apply counts_bind; [apply counts_transcribe|]. intros tr. cbv zeta.
  destruct (negb _); [apply counts_raise_any|].
  apply counts_bind; [apply counts_extract_with_fallback|]. intros ne0.
  apply counts_bind; [apply counts_followup_email|]. intros email.
  apply counts_bind; [apply counts_whatsapp|]. intros wa.
  apply counts_bind.
  { destruct target_lang as [tl|]; [|apply counts_ret_any].
    destruct (wants_translation (Some tl)); [apply counts_translate|apply counts_ret_any]. }
  intros translated.
  apply (counts_bind _ _ 0 0).
  - now apply counts_silent.
  - intros md. apply (counts_ret_any _ 0).
Qed.

Lemma counts_summarize_meeting env audio target_lang :
  counts_at_most f (nd + (nt + (nx + (ne + (nw + (nl + 0))))))
    (summarize_meeting env audio target_lang).
Proof.
  intros w. unfold summarize_meeting.
  assert (H : counts_at_most f (nd + (nt + (nx + (ne + (nw + (nl + 0))))))
    (bind (open_wb env (upload_name env audio) (upload_path env audio)) (fun _ =>
     bind (save_chunks (upload_path env audio) (reads audio)) (fun _ =>
     bind (path_exists (upload_path env audio)) (fun saved =>
       if negb saved
       then raise (HTTPException 400 "Failed to save uploaded file.")
       else try_finally (process env (upload_path env audio) target_lang)
              (cleanup (upload_path env audio))))))).
  { set (N := (nd + (nt + (nx + (ne + (nw + (nl + 0))))))%nat).
    apply (counts_bind _ _ 0 N).
    { apply counts_silent. intros w1. unfold open_wb. now destruct (openable _). }
    intros _.
    apply (counts_bind _ _ 0 N);
      [apply counts_silent; intros w1; apply save_chunks_trace|]. intros _.
    apply (counts_bind _ _ 0 N); [now apply counts_silent|].
    intros saved. destruct (negb saved); [apply counts_raise_any|].
    intros w1. unfold try_finally.
    assert (Hp : counts_at_most f N
                   (process env (upload_path env audio) target_lang)).
    { unfold process, N. apply counts_bind; [apply counts_convert|].
      intros wav.
      apply (counts_bind _ _ 0 (nt + (nx + (ne + (nw + (nl + 0))))));
        [now apply counts_silent|].
      intros _. apply counts_process_wav. }
    destruct (Hp w1) as (evs & E & L).
    destruct (process _ _ _ w1) as [r w2]. simpl in *. eauto. }
  apply (H (World (fs w) (trace w) None)).
Qed.

End Counting.

(** X15: nothing is retried.  A request makes at most six calls to its
    collaborators: at most one to the decoder, one to the speech engine and
    four to the generation model, of which at most one is the extraction
    prompt. *)
Theorem request_makes_no_retry (env : Env) (audio : UploadFile)
    (target_lang : option string) (w : world) :
  exists evs,
    trace (snd (summarize_meeting env audio target_lang w)) = trace w ++ evs
    /\ (length evs <= 6)%nat
    /\ (length (List.filter is_generate evs) <= 4)%nat
    /\ (length (List.filter is_extract evs) <= 1)%nat.
Proof.
  destruct (counts_summarize_meeting any_event 1 1 1 1 1 1
              ltac:(reflexivity) ltac:(reflexivity) ltac:(reflexivity)
              ltac:(reflexivity) ltac:(reflexivity) ltac:(reflexivity)
              env audio target_lang w) as (evs & E & L).
  destruct (counts_summarize_meeting is_generate 0 0 1 1 1 1
              ltac:(reflexivity) ltac:(reflexivity) ltac:(reflexivity)
              ltac:(reflexivity) ltac:(reflexivity) ltac:(reflexivity)
              env audio target_lang w) as (evs2 & E2 & L2).
  destruct (counts_summarize_meeting is_extract 0 0 1 0 0 0
              ltac:(reflexivity) ltac:(reflexivity) ltac:(reflexivity)
              ltac:(reflexivity) ltac:(reflexivity) ltac:(reflexivity)
              env audio target_lang w) as (evs3 & E3 & L3).
  rewrite E in E2, E3. apply app_inv_head in E2, E3. subst evs2 evs3.
  exists evs. split; [exact E|].
  assert (Hall : List.filter any_event evs = evs).
  { clear. induction evs as [|e evs IH]; [reflexivity|]. simpl. now rewrite IH. }
  rewrite Hall in L. simpl in *. repeat split; assumption.
Qed.

(** *** The request: what it returns *)

(** X16: the response of a request that succeeds is a dict of the same
    thirteen keys in the same order; its transcript is not blank, the three
    generated texts are strings, and [target_lang] echoes the form field
    (None when it was absent). *)
Theorem response_has_thirteen_fields (env : Env) (audio : UploadFile)
    (target_lang : option string) (w : world) (resp : pyval) (w' : world) :
  summarize_meeting env audio target_lang w = (Returns resp, w') ->
  exists items transcript md email wa,
    resp = PDict items
    /\ map fst items = RESPONSE_KEYS
    /\ Py.lookup "transcript" items = Some (PStr transcript)
    /\ PyStr.nonempty (PyStr.strip transcript) = true
    /\ Py.lookup "structured_summary" items = Some (PStr md)
    /\ Py.lookup "followup_email" items = Some (PStr email)
    /\ Py.lookup "whatsapp" items = Some (PStr wa)
    /\ Py.lookup "target_lang" items = Some (opt_str target_lang).
Proof.
  intros Hrun. apply summarize_meeting_returns in Hrun.
  destruct Hrun as (wav & w1 & w2 & Hp). apply process_wav_returns in Hp.
  destruct Hp as (tr & di & note & ex & em & wa & tl & md & -> & Hne & _ & _).
  eexists _, tr, md, em, wa. split; [reflexivity|].
  repeat split; try reflexivity. exact Hne.
Qed.

Lemma response_has_thirteen_fields_witness :
  exists items transcript md email wa,
    match fst (summarize_meeting demo_env demo_audio (Some "French") empty_world) with
    | Returns resp => resp
    | Raises _ => PNone
    end = PDict items
    /\ map fst items = RESPONSE_KEYS
    /\ Py.lookup "transcript" items = Some (PStr transcript)
    /\ PyStr.nonempty (PyStr.strip transcript) = true
    /\ Py.lookup "structured_summary" items = Some (PStr md)
    /\ Py.lookup "followup_email" items = Some (PStr email)
    /\ Py.lookup "whatsapp" items = Some (PStr wa)
    /\ Py.lookup "target_lang" items = Some (opt_str (Some "French")).
Proof.
  apply (response_has_thirteen_fields demo_env demo_audio (Some "French") empty_world _
           (snd (summarize_meeting demo_env demo_audio (Some "French") empty_world))).
  vm_compute. reflexivity.
Defined.

Section Returning.






End Returning.


